(** * The chat widget and the admin search of ncirl-chatbot

    A shallow embedding of [static/js/index.js] (the chat page: [addMessage],
    [sendMessage] and its streaming read loop) and of the search filter of the
    admin page ([filterKnowledge], [displayKnowledge]).

    JavaScript strings are sequences of UTF-16 code units, so text is a list
    of code units here.  The browser's own functions the code calls are
    embedded next to it: [String.prototype.trim], [startsWith], [slice],
    [split], [includes] and [JSON.parse] are written out; two of them are
    left to the host as Section variables, because the code does not depend
    on what they compute: the printing of a number ([Number_toString]) and
    Unicode lower-casing ([toLowerCase]). *)

From Stdlib Require Import List NArith ZArith Bool Ascii String Lia Sorted.
Import ListNotations.

Set Warnings "-register-all".
Local Open Scope N_scope.

(** ** JavaScript strings *)

Module JS.

Definition code_unit := N.
Definition jsstring := list code_unit.

(** An ASCII literal as a JavaScript string. *)
Definition js (s : string) : jsstring :=
  map N_of_ascii (list_ascii_of_string s).

(** The same, with every apostrophe read as a quotation mark: JSON text is
    written [jq "{'content':'hi'}"] below. *)
Definition jq (s : string) : jsstring :=
  map (fun c => if c =? 39 then 34 else c) (js s).

Definition LF : code_unit := 10.

Fixpoint jsstring_eqb (a b : jsstring) : bool :=
  match a, b with
  | [], [] => true
  | x :: a', y :: b' => (x =? y) && jsstring_eqb a' b'
  | _, _ => false
  end.

(** [s.startsWith(p)] *)
Fixpoint startsWith (s p : jsstring) : bool :=
  match p, s with
  | [], _ => true
  | x :: p', y :: s' => (x =? y) && startsWith s' p'
  | _ :: _, [] => false
  end.

(** [s.slice(n)] for a non-negative [n] *)
Definition slice (n : nat) (s : jsstring) : jsstring := skipn n s.

(** [s.split('\n')]: the pieces between line feeds; the empty string gives
    one empty piece. *)
Fixpoint split_lines (s : jsstring) : list jsstring :=
  match s with
  | [] => [[]]
  | c :: r =>
      if c =? LF then [] :: split_lines r
      else match split_lines r with
           | l :: ls => (c :: l) :: ls
           | [] => [[c]]
           end
  end.

(** [s.includes(t)] *)
Fixpoint includes (s t : jsstring) : bool :=
  startsWith s t
  || match s with
     | [] => false
     | _ :: r => includes r t
     end.

(** White space and line terminators of ECMAScript, all in the basic plane:
    what [trim] removes. *)
Definition is_space (c : code_unit) : bool :=
  (c =? 0x9) || (c =? 0xA) || (c =? 0xB) || (c =? 0xC) || (c =? 0xD)
  || (c =? 0x20) || (c =? 0xA0) || (c =? 0x1680)
  || ((0x2000 <=? c) && (c <=? 0x200A))
  || (c =? 0x2028) || (c =? 0x2029) || (c =? 0x202F) || (c =? 0x205F)
  || (c =? 0x3000) || (c =? 0xFEFF).

Fixpoint trimStart (s : jsstring) : jsstring :=
  match s with
  | c :: r => if is_space c then trimStart r else s
  | [] => []
  end.

Definition trimEnd (s : jsstring) : jsstring := rev (trimStart (rev s)).

Definition trim (s : jsstring) : jsstring := trimEnd (trimStart s).

(** A string is falsy exactly when it is empty. *)
Definition nonempty (s : jsstring) : bool :=
  match s with [] => false | _ :: _ => true end.

End JS.
Import JS.

(** ** JSON.parse *)

Module JSON.

(** A number literal is kept as the decimal it denotes,
    [(-1)^negative * mantissa * 10^exponent]. *)
Record number := { negative : bool; mantissa : N; exponent : Z }.

Inductive JValue :=
| JNull
| JBool (b : bool)
| JNumber (n : number)
| JString (s : jsstring)
| JArray (items : list JValue)
| JObject (members : list (jsstring * JValue)).

Inductive result (A : Type) :=
| Parsed (a : A) (rest : jsstring)
| SyntaxError
| OutOfFuel.
Arguments Parsed {A} a rest.
Arguments SyntaxError {A}.
Arguments OutOfFuel {A}.

Definition is_ws (c : code_unit) : bool :=
  (c =? 0x20) || (c =? 0x9) || (c =? 0xA) || (c =? 0xD).

Fixpoint skip_ws (s : jsstring) : jsstring :=
  match s with
  | c :: r => if is_ws c then skip_ws r else s
  | [] => []
  end.

Definition digit (c : code_unit) : option N :=
  if (48 <=? c) && (c <=? 57) then Some (c - 48) else None.

Definition hex (c : code_unit) : option N :=
  if (48 <=? c) && (c <=? 57) then Some (c - 48)
  else if (65 <=? c) && (c <=? 70) then Some (c - 55)
  else if (97 <=? c) && (c <=? 102) then Some (c - 87)
  else None.

(** The longest run of digits at the head of [s], read in base ten after
    [acc], with its length. *)
Fixpoint digits (acc : N) (len : nat) (s : jsstring) : N * nat * jsstring :=
  match s with
  | c :: r =>
      match digit c with
      | Some d => digits (10 * acc + d) (S len) r
      | None => (acc, len, s)
      end
  | [] => (acc, len, [])
  end.

(** A number: an optional minus sign; an integer part, either a single zero
    or a run of digits that does not start with zero; an optional fraction,
    a point and at least one digit; an optional exponent, [e] or [E], an
    optional sign and at least one digit. *)
Definition parse_number (s : jsstring) : result number :=
  let '(neg, s1) :=
    match s with
    | c :: r => if c =? 45 then (true, r) else (false, s)
    | [] => (false, s)
    end in
  let int_part : option (N * jsstring) :=
    match s1 with
    | c :: r =>
        if c =? 48 then Some (0, r)
        else match digit c with
             | Some _ => let '(m, _, r') := digits 0 0 s1 in Some (m, r')
             | None => None
             end
    | [] => None
    end in
  match int_part with
  | None => SyntaxError
  | Some (m, s2) =>
      let frac : option (N * nat * jsstring) :=
        match s2 with
        | c :: r =>
            if c =? 46 then
              let '(m', k, r') := digits m 0 r in
              match k with O => None | S _ => Some (m', k, r') end
            else Some (m, O, s2)
        | [] => Some (m, O, s2)
        end in
      match frac with
      | None => SyntaxError
      | Some (m', k, s3) =>
          let exp : option (Z * jsstring) :=
            match s3 with
            | c :: r =>
                if (c =? 101) || (c =? 69) then
                  let '(eneg, r1) :=
                    match r with
                    | d :: r0 =>
                        if d =? 45 then (true, r0)
                        else if d =? 43 then (false, r0)
                        else (false, r)
                    | [] => (false, r)
                    end in
                  let '(e, n, r2) := digits 0 0 r1 in
                  match n with
                  | O => None
                  | S _ => Some (if eneg then (- Z.of_N e)%Z else Z.of_N e, r2)
                  end
                else Some (0%Z, s3)
            | [] => Some (0%Z, s3)
            end in
          match exp with
          | None => SyntaxError
          | Some (e, s4) =>
              Parsed {| negative := neg; mantissa := m';
                        exponent := (e - Z.of_nat k)%Z |} s4
          end
      end
  end.

(** The characters of a string literal after its opening quotation mark. *)
Fixpoint parse_chars (s : jsstring) : result jsstring :=
  match s with
  | [] => SyntaxError
  | c :: r =>
      if c =? 34 then Parsed [] r
      else if c =? 92 then
        match r with
        | [] => SyntaxError
        | e :: r1 =>
            if e =? 117 then
              match r1 with
              | h1 :: h2 :: h3 :: h4 :: r2 =>
                  match hex h1, hex h2, hex h3, hex h4 with
                  | Some a, Some b, Some c', Some d =>
                      match parse_chars r2 with
                      | Parsed t rest =>
                          Parsed (((a * 16 + b) * 16 + c') * 16 + d :: t) rest
                      | other => other
                      end
                  | _, _, _, _ => SyntaxError
                  end
              | _ => SyntaxError
              end
            else
              let unescaped : option code_unit :=
                if (e =? 34) || (e =? 92) || (e =? 47) then Some e
                else if e =? 98 then Some 8
                else if e =? 102 then Some 12
                else if e =? 110 then Some 10
                else if e =? 114 then Some 13
                else if e =? 116 then Some 9
                else None in
              match unescaped with
              | None => SyntaxError
              | Some u =>
                  match parse_chars r1 with
                  | Parsed t rest => Parsed (u :: t) rest
                  | other => other
                  end
              end
        end
      else if c <? 32 then SyntaxError
      else
        match parse_chars r with
        | Parsed t rest => Parsed (c :: t) rest
        | other => other
        end
  end.

Definition parse_literal (word : jsstring) (v : JValue) (s : jsstring)
  : result JValue :=
  if startsWith s word then Parsed v (skipn (List.length word) s)
  else SyntaxError.

(** Recursive descent over the grammar of ECMA-404.  [parse_elements] starts
    at an element of an array and [parse_members] at a member of an object,
    both after the opening bracket. *)
Fixpoint parse_value (fuel : nat) (s : jsstring) : result JValue :=
  match fuel with
  | O => OutOfFuel
  | S fuel' =>
      match skip_ws s with
      | [] => SyntaxError
      | c :: r =>
          if c =? 123 then
            match skip_ws r with
            | [] => SyntaxError
            | c' :: r' =>
                if c' =? 125 then Parsed (JObject []) r'
                else match parse_members fuel' r with
                     | Parsed ms rest => Parsed (JObject ms) rest
                     | SyntaxError => SyntaxError
                     | OutOfFuel => OutOfFuel
                     end
            end
          else if c =? 91 then
            match skip_ws r with
            | [] => SyntaxError
            | c' :: r' =>
                if c' =? 93 then Parsed (JArray []) r'
                else match parse_elements fuel' r with
                     | Parsed vs rest => Parsed (JArray vs) rest
                     | SyntaxError => SyntaxError
                     | OutOfFuel => OutOfFuel
                     end
            end
          else if c =? 34 then
            match parse_chars r with
            | Parsed t rest => Parsed (JString t) rest
            | SyntaxError => SyntaxError
            | OutOfFuel => OutOfFuel
            end
          else if c =? 116 then parse_literal (js "true") (JBool true) (c :: r)
          else if c =? 102 then
            parse_literal (js "false") (JBool false) (c :: r)
          else if c =? 110 then parse_literal (js "null") JNull (c :: r)
          else
            match parse_number (c :: r) with
            | Parsed n rest => Parsed (JNumber n) rest
            | SyntaxError => SyntaxError
            | OutOfFuel => OutOfFuel
            end
      end
  end

with parse_elements (fuel : nat) (s : jsstring) : result (list JValue) :=
  match fuel with
  | O => OutOfFuel
  | S fuel' =>
      match parse_value fuel' s with
      | Parsed v r =>
          match skip_ws r with
          | [] => SyntaxError
          | c :: r' =>
              if c =? 44 then
                match parse_elements fuel' r' with
                | Parsed vs rest => Parsed (v :: vs) rest
                | other => other
                end
              else if c =? 93 then Parsed [v] r'
              else SyntaxError
          end
      | SyntaxError => SyntaxError
      | OutOfFuel => OutOfFuel
      end
  end

with parse_members (fuel : nat) (s : jsstring)
  : result (list (jsstring * JValue)) :=
  match fuel with
  | O => OutOfFuel
  | S fuel' =>
      match skip_ws s with
      | [] => SyntaxError
      | q :: r0 =>
          if q =? 34 then
            match parse_chars r0 with
            | Parsed key r1 =>
                match skip_ws r1 with
                | [] => SyntaxError
                | colon :: r2 =>
                    if colon =? 58 then
                      match parse_value fuel' r2 with
                      | Parsed v r3 =>
                          match skip_ws r3 with
                          | [] => SyntaxError
                          | c :: r4 =>
                              if c =? 44 then
                                match parse_members fuel' r4 with
                                | Parsed ms rest => Parsed ((key, v) :: ms) rest
                                | other => other
                                end
                              else if c =? 125 then Parsed [(key, v)] r4
                              else SyntaxError
                          end
                      | SyntaxError => SyntaxError
                      | OutOfFuel => OutOfFuel
                      end
                    else SyntaxError
                end
            | SyntaxError => SyntaxError
            | OutOfFuel => OutOfFuel
            end
          else SyntaxError
      end
  end.

(** [JSON.parse(s)]: [None] when it throws a [SyntaxError].  One unit of
    fuel is spent per value, element and member, at most two of them for a
    character of [s], so the fuel given here never runs out
    ([parse_fuel_enough] below).  No limit on the depth of nesting is
    modelled. *)
Definition parse (s : jsstring) : option JValue :=
  match parse_value (S (2 * List.length s)) s with
  | Parsed v rest =>
      match skip_ws rest with
      | [] => Some v
      | _ :: _ => None
      end
  | _ => None
  end.

End JSON.
Import JSON.

(** ** Values as the consumer reads them *)

Module Value.

(** The double nearest to a decimal is zero exactly when the decimal is at
    most [2^-1075], half of the least positive double (ties go to the even
    neighbour, which is zero). *)
Definition is_zero (n : number) : bool :=
  (mantissa n =? 0)
  || ((exponent n <? 0)%Z
      && (Z.of_N (mantissa n) * 2 ^ 1075 <=? 10 ^ (- exponent n))%Z).

(** [ToBoolean], with [None] for [undefined].  [JSON.parse] yields no [NaN]. *)
Definition ToBoolean (v : option JValue) : bool :=
  match v with
  | None => false
  | Some JNull => false
  | Some (JBool b) => b
  | Some (JNumber n) => negb (is_zero n)
  | Some (JString s) => nonempty s
  | Some (JArray _) => true
  | Some (JObject _) => true
  end.

(** The own property [key] of an object made by [JSON.parse]: the last
    member of that name. *)
Fixpoint lookup (key : jsstring) (ms : list (jsstring * JValue))
  : option JValue :=
  match ms with
  | [] => None
  | (k, v) :: r =>
      match lookup key r with
      | Some v' => Some v'
      | None => if jsstring_eqb k key then Some v else None
      end
  end.

(** [data.key] for a [data] that is not [null] and a [key] that no prototype
    defines and that is neither [length] nor an index, as [error], [content]
    and [done] are: [undefined] on everything but an object that has it. *)
Definition field (key : jsstring) (data : JValue) : option JValue :=
  match data with
  | JObject ms => lookup key ms
  | _ => None
  end.

End Value.
Import Value.

(** ** The formatting of an answer *)

Module Markup.

(** What [.] does not match in a regular expression. *)
Definition is_line_terminator (c : code_unit) : bool :=
  (c =? 0xA) || (c =? 0xD) || (c =? 0x2028) || (c =? 0x2029).

Definition is_digit (c : code_unit) : bool := (48 <=? c) && (c <=? 57).

(** [s.replace(re, template)] for a global [re] that matches no empty
    string.  [match_at s] is the match of [re] at the head of [s], if there
    is one: the text that replaces it and the number of code units it
    spans.  A match is looked for at each place from left to right, the
    next one after the end of the one found; [skip] counts the code units
    of a match that are still to be passed over. *)
Fixpoint replace_all (match_at : jsstring -> option (jsstring * nat))
    (skip : nat) (s : jsstring) : jsstring :=
  match s with
  | [] => []
  | c :: r =>
      match skip with
      | S k => replace_all match_at k r
      | O =>
          match match_at s with
          | Some (out, len) => out ++ replace_all match_at (len - 1) r
          | None => c :: replace_all match_at 0 r
          end
      end
  end.

(** The rest of [(.+?)\*\*] after the first character of the group: the
    group grows by one character that is no line terminator at a time,
    until two asterisks follow it. *)
Fixpoint lazy_group (s : jsstring) : option jsstring :=
  match s with
  | [] => None
  | c :: r =>
      if (c =? 42) && match r with d :: _ => d =? 42 | [] => false end
      then Some []
      else if is_line_terminator c then None
      else match lazy_group r with
           | Some g => Some (c :: g)
           | None => None
           end
  end.

(** [/\*\*(.+?)\*\*/] replaced by [<strong>$1</strong>]. *)
Definition bold_at (s : jsstring) : option (jsstring * nat) :=
  match s with
  | a :: b :: c :: r =>
      if (a =? 42) && (b =? 42) && negb (is_line_terminator c) then
        match lazy_group r with
        | Some g =>
            Some (js "<strong>" ++ (c :: g) ++ js "</strong>",
                  (2 + List.length (c :: g) + 2)%nat)
        | None => None
        end
      else None
  | _ => None
  end.

(** The longest run of code units other than [stop] at the head of [s]. *)
Fixpoint run_until (stop : code_unit) (s : jsstring) : jsstring * jsstring :=
  match s with
  | [] => ([], [])
  | c :: r =>
      if c =? stop then ([], s)
      else let (g, rest) := run_until stop r in (c :: g, rest)
  end.

(** [/\[([^\]]+)\]\(([^)]+)\)/] replaced by a link to [$2] that reads [$1]:
    each class takes all it can, and can give nothing back, since what
    follows it is the one character it excludes. *)
Definition link_at (s : jsstring) : option (jsstring * nat) :=
  match s with
  | o :: r =>
      if o =? 91 then
        let (text, r1) := run_until 93 r in
        match text, r1 with
        | _ :: _, _ :: p :: r2 =>
            if p =? 40 then
              let (url, r3) := run_until 41 r2 in
              match url, r3 with
              | _ :: _, _ :: _ =>
                  Some
                    (jq "<a href='" ++ url
                     ++ jq "' target='_blank' rel='noopener noreferrer' "
                     ++ jq "style='color: #667eea; text-decoration: underline;'>"
                     ++ text ++ js "</a>",
                     (1 + List.length text + 2 + List.length url + 1)%nat)
              | _, _ => None
              end
            else None
        | _, _ => None
        end
      else None
  | [] => None
  end.

(** The longest run of digits at the head of [s]. *)
Fixpoint digit_run (s : jsstring) : jsstring * jsstring :=
  match s with
  | [] => ([], [])
  | c :: r =>
      if is_digit c
      then let (g, rest) := digit_run r in (c :: g, rest)
      else ([], s)
  end.

(** [/(\d+)\.\s/] replaced by [<br>$1. ]: the digits are all that are
    there, since a digit cannot stand for the point. *)
Definition numbered_at (s : jsstring) : option (jsstring * nat) :=
  let (d, r) := digit_run s in
  match d, r with
  | _ :: _, p :: w :: _ =>
      if (p =? 46) && is_space w
      then Some (js "<br>" ++ d ++ js ". ", (List.length d + 2)%nat)
      else None
  | _, _ => None
  end.

(** [/\n/] replaced by [<br>]. *)
Definition newline_at (s : jsstring) : option (jsstring * nat) :=
  match s with
  | c :: _ => if c =? LF then Some (js "<br>", 1%nat) else None
  | [] => None
  end.

Definition formatBotMessage (text : jsstring) : jsstring :=
  replace_all newline_at 0
    (replace_all numbered_at 0
       (replace_all link_at 0
          (replace_all bold_at 0 text))).

(** The characters that cannot start a match of each pattern. *)
Definition quiet_bold (c : code_unit) : bool := negb (c =? 42).
Definition quiet_link (c : code_unit) : bool := negb (c =? 91).
Definition quiet_numbered (c : code_unit) : bool := negb (is_digit c).
Definition quiet_newline (c : code_unit) : bool := negb (c =? LF).

(** A character that can start a match of none of the four. *)
Definition plain (c : code_unit) : bool :=
  negb (c =? 42) && negb (c =? 91) && negb (c =? LF) && negb (is_digit c).

End Markup.
Import Markup.

(** ** The chat page *)

Module Chat.

(** A node of the tree below an element: a text, or an element with its
    tag, its attributes and its children. *)
Inductive node :=
| TextNode (data : jsstring)
| Element (tagName : jsstring) (attributes : list (jsstring * jsstring))
    (childNodes : list node).

(** What an element holds.  [Text t] is [textContent = t]; [Formatted t] is
    [innerHTML = formatBotMessage(t)], kept as the text that was formatted;
    [Nodes l] is the children themselves, once one of them was written to.
    A new element holds nothing, which is what [formatBotMessage] makes of
    the empty text. *)
Inductive Html :=
| Text (t : jsstring)
| Formatted (t : jsstring)
| Nodes (l : list node).

Definition empty_html : Html := Formatted [].

Record element := { className : jsstring; id : jsstring; html : Html }.

(** One child of [chatMessages]: the message [div], its avatar, its text. *)
Record message := { wrapper : jsstring; avatar : element; body : element }.

(** What the page does that can be seen from outside, in the order it
    happens.  The three writes of [innerHTML] in [sendMessage] are told
    apart by the statement that makes them; each names the message it
    goes to, which for the write of the [catch] is the one that holds the
    element found. *)
Inductive effect :=
| Scroll
| Request (text : jsstring)
| Read
| ShowText (target : nat) (text : jsstring)
| ShowError (target : nat)
| Pause (ms : nat)
| Unmark (target : nat)
| ShowConnectionError (target : nat).

Record page := {
  userInput : jsstring;
  chatMessages : list message;
  log : list effect
}.

Definition emit (e : effect) (w : page) : page :=
  {| userInput := userInput w;
     chatMessages := chatMessages w;
     log := log w ++ [e] |}.

Definition student : jsstring := [0xD83D; 0xDC69; 0x200D; 0xD83C; 0xDF93].
Definition robot : jsstring := [0xD83E; 0xDD16].
Definition teacher : jsstring := [0xD83D; 0xDC69; 0x200D; 0xD83C; 0xDFEB].

Definition appendChild (m : message) (w : page) : page :=
  {| userInput := userInput w;
     chatMessages := chatMessages w ++ [m];
     log := log w |}.

Definition addMessage (text : jsstring) (isUser : bool) (w : page) : page :=
  let messageDiv :=
    {| wrapper := if isUser then js "message user" else js "message";
       avatar :=
         {| className := if isUser then js "message-avatar user-avatar"
                         else js "message-avatar bot-avatar";
            id := [];
            html := Text (if isUser then student else robot) |};
       body :=
         {| className := if isUser then js "user-message" else js "bot-message";
            id := [];
            html := Text text |} |} in
  emit Scroll (appendChild messageDiv w).

(** The element [contentDiv] is the text of the message at a known place of
    [chatMessages]; nothing in [sendMessage] removes or reorders children. *)
Fixpoint update_body (k : nat) (f : element -> element) (ms : list message)
  : list message :=
  match ms with
  | [] => []
  | m :: r =>
      match k with
      | O =>
          {| wrapper := wrapper m; avatar := avatar m; body := f (body m) |}
          :: r
      | S k' => m :: update_body k' f r
      end
  end.

Definition set_innerHTML (k : nat) (h : Html) (w : page) : page :=
  {| userInput := userInput w;
     chatMessages :=
       update_body k
         (fun e => {| className := className e; id := id e; html := h |})
         (chatMessages w);
     log := log w |}.

Definition set_id (k : nat) (i : jsstring) (w : page) : page :=
  {| userInput := userInput w;
     chatMessages :=
       update_body k
         (fun e => {| className := className e; id := i; html := html e |})
         (chatMessages w);
     log := log w |}.

Fixpoint update_avatar (k : nat) (f : element -> element)
    (ms : list message) : list message :=
  match ms with
  | [] => []
  | m :: r =>
      match k with
      | O =>
          {| wrapper := wrapper m; avatar := f (avatar m); body := body m |}
          :: r
      | S k' => m :: update_avatar k' f r
      end
  end.

(** The [id] attribute of an element the parser made, empty when it has
    none. *)
Definition id_of (attributes : list (jsstring * jsstring)) : jsstring :=
  match find (fun a => jsstring_eqb (fst a) (js "id")) attributes with
  | Some a => snd a
  | None => []
  end.

(** The node or one of its descendants is an element with the id [i]. *)
Fixpoint declares (i : jsstring) (n : node) : bool :=
  match n with
  | TextNode _ => false
  | Element _ attributes childNodes =>
      jsstring_eqb (id_of attributes) i || existsb (declares i) childNodes
  end.

(** [f] on the first member of the list that [p] holds of. *)
Definition on_first {A : Type} (p : A -> bool) (f : A -> A)
  : list A -> list A :=
  fix go (l : list A) : list A :=
    match l with
    | [] => []
    | x :: r => if p x then f x :: r else x :: go r
    end.

(** Where [getElementById] finds an element: in which message, in its avatar
    or in its text, and whether it is that element itself or the first of
    its descendants with the id. *)
Inductive part := OfAvatar | OfBody.
Inductive spot := Itself | Below.
Record place := { message_of : nat; part_of : part; spot_of : spot }.

Definition next_message (t : place) : place :=
  {| message_of := S (message_of t);
     part_of := part_of t;
     spot_of := spot_of t |}.

Definition displayed (k : nat) (w : page) : option Html :=
  option_map (fun m => html (body m)) (nth_error (chatMessages w) k).

Definition marker (k : nat) (w : page) : option jsstring :=
  option_map (fun m => id (body m)) (nth_error (chatMessages w) k).

Definition error_message : jsstring :=
  js "Sorry, I encountered an error. Please try again.".
Definition connection_error : jsstring :=
  js "Connection error. Please check if the server is running.".
Definition streaming_message : jsstring := js "streaming-message".
Definition DELAY_MS : nat := 20.

(** What [reader.read()] gives: a chunk, already decoded to text; the end of
    the stream; or a rejection. *)
Inductive read_result :=
| Chunk (text : jsstring)
| Done
| ReadError.

(** What [fetch] gives: a rejection, or a response whose body yields the
    given reads in turn and reports the end of the stream after them. *)
Inductive fetch_result :=
| NetworkError
| Response (reads : list read_result).

(** The state of one run of the read loop. *)
Record consumer := { fullText : jsstring; dom : page }.

Inductive control := Continue | Break.

Inductive outcome :=
| Completed (c : consumer)
| Thrown (c : consumer).

Definition on_dom (f : page -> page) (c : consumer) : consumer :=
  {| fullText := fullText c; dom := f (dom c) |}.

Section Consumer.

(** [Number::toString], reached only when a [content] field holds a number
    other than zero (or an array of numbers). *)
Variable Number_toString : number -> jsstring.

(** The HTML fragment parser: the children an element of the given tag
    gets when its [innerHTML] is set to the given markup, which is not
    empty. *)
Variable parseFragment : jsstring -> jsstring -> list node.

(** The text [fullText += v] appends, or [None] when the conversion throws
    a [TypeError].  An object made by [JSON.parse] has no member that can
    be called: when it has a member [toString] of its own, neither
    [valueOf], which is its own or gives the object back, nor [toString]
    yields a primitive value; when it has none, [Object.prototype.toString]
    does.  An array is joined, its members converted in the same way, but
    for [null], which gives the empty text. *)
Fixpoint ToString (v : JValue) : option jsstring :=
  match v with
  | JNull => Some (js "null")
  | JBool true => Some (js "true")
  | JBool false => Some (js "false")
  | JNumber n => Some (Number_toString n)
  | JString s => Some s
  | JArray items =>
      (fix join (l : list JValue) : option jsstring :=
         match l with
         | [] => Some []
         | x :: r =>
             match match x with JNull => Some [] | _ => ToString x end with
             | Some item =>
                 match r with
                 | [] => Some item
                 | _ :: _ =>
                     match join r with
                     | Some items' => Some (item ++ 44 :: items')
                     | None => None
                     end
                 end
             | None => None
             end
         end) items
  | JObject members =>
      match lookup (js "toString") members with
      | Some _ => None
      | None => Some (js "[object Object]")
      end
  end.

(** The statements of the [try] after [data.error] has been read, and its
    [catch]: when [fullText += data.content] throws, nothing of the event
    is done, the completion no more than the display. *)
Definition on_fields (k : nat) (data : JValue) (c : consumer)
  : control * consumer :=
  if ToBoolean (field (js "error") data) then
    (Break,
     on_dom (fun w => emit (ShowError k)
                        (set_innerHTML k (Formatted error_message) w)) c)
  else
    let appended :=
      match field (js "content") data with
      | Some v =>
          if ToBoolean (Some v) then
            match ToString v with
            | Some t =>
                let text := fullText c ++ t in
                Some
                  {| fullText := text;
                     dom := emit (Pause DELAY_MS)
                              (emit Scroll
                                 (emit (ShowText k text)
                                    (set_innerHTML k (Formatted text)
                                       (dom c)))) |}
            | None => None
            end
          else Some c
      | None => Some c
      end in
    match appended with
    | Some c1 =>
        (Continue,
         if ToBoolean (field (js "done") data) then
           on_dom (fun w => emit (Unmark k) (set_id k [] w)) c1
         else c1)
    | None => (Continue, c)
    end.

(** The body of the [try] once [JSON.parse] has returned [data].  Reading
    [data.error] of [null] throws a [TypeError]. *)
Definition on_event (k : nat) (data : JValue) (c : consumer)
  : control * consumer :=
  match data with
  | JNull => (Continue, c)
  | _ => on_fields k data c
  end.

(** One turn of [for (const line of lines)].  The [catch] that skips
    invalid JSON catches whatever the [try] throws. *)
Definition on_line (k : nat) (line : jsstring) (c : consumer)
  : control * consumer :=
  if startsWith line (js "data: ") then
    match JSON.parse (slice 6 line) with
    | Some data => on_event k data c
    | None => (Continue, c)
    end
  else (Continue, c).

Fixpoint for_lines (k : nat) (lines : list jsstring) (c : consumer)
  : consumer :=
  match lines with
  | [] => c
  | line :: rest =>
      match on_line k line c with
      | (Break, c') => c'
      | (Continue, c') => for_lines k rest c'
      end
  end.

(** [while (true)]: read, stop at the end of the stream, else split the
    chunk into lines and take them in turn. *)
Fixpoint read_loop (k : nat) (reads : list read_result) (c : consumer)
  : outcome :=
  match reads with
  | [] => Completed (on_dom (emit Read) c)
  | Done :: _ => Completed (on_dom (emit Read) c)
  | ReadError :: _ => Thrown (on_dom (emit Read) c)
  | Chunk text :: rest =>
      read_loop k rest (for_lines k (split_lines text) (on_dom (emit Read) c))
  end.

(** The children of an element.  A text that is not empty is one text
    node; markup that is not empty is parsed, inside a [div]. *)
Definition inner (tagName markup : jsstring) : list node :=
  match markup with
  | [] => []
  | _ :: _ => parseFragment tagName markup
  end.

Definition children (h : Html) : list node :=
  match h with
  | Text t => match t with [] => [] | _ :: _ => [TextNode t] end
  | Formatted t => inner (js "div") (formatBotMessage t)
  | Nodes l => l
  end.

(** [innerHTML = markup] on the first element with the id [i] among the
    node and its descendants, in document order. *)
Fixpoint write (i markup : jsstring) (n : node) : node :=
  match n with
  | TextNode _ => n
  | Element tagName attributes childNodes =>
      if jsstring_eqb (id_of attributes) i
      then Element tagName attributes (inner tagName markup)
      else Element tagName attributes
             (on_first (declares i) (write i markup) childNodes)
  end.

(** The first element with the id [i] in an avatar or in the text of a
    message: the element itself, or one below it. *)
Definition find_in (i : jsstring) (e : element) : option spot :=
  if jsstring_eqb (id e) i then Some Itself
  else if existsb (declares i) (children (html e)) then Some Below
  else None.

Definition find_in_message (i : jsstring) (m : message)
  : option (part * spot) :=
  match find_in i (avatar m) with
  | Some s => Some (OfAvatar, s)
  | None =>
      match find_in i (body m) with
      | Some s => Some (OfBody, s)
      | None => None
      end
  end.

Fixpoint find_id (i : jsstring) (ms : list message) : option place :=
  match ms with
  | [] => None
  | m :: r =>
      match find_in_message i m with
      | Some (p, s) =>
          Some {| message_of := O; part_of := p; spot_of := s |}
      | None => option_map next_message (find_id i r)
      end
  end.

(** [document.getElementById(i)]: the first element with the id in
    document order, over the messages of the chat, each with its avatar
    and its text and what the parser made below them.  No id is empty.
    The rest of the page is taken to have no element with the id that is
    looked for; the message [div]s have no id. *)
Definition getElementById (i : jsstring) (w : page) : option place :=
  match i with
  | [] => None
  | _ :: _ => find_id i (chatMessages w)
  end.

(** [innerHTML = formatBotMessage(text)] on the element found for [i] at
    the spot [s] of [e]. *)
Definition write_in (i text : jsstring) (s : spot) (e : element) : element :=
  {| className := className e;
     id := id e;
     html :=
       match s with
       | Itself => Formatted text
       | Below =>
           Nodes (on_first (declares i) (write i (formatBotMessage text))
                    (children (html e)))
       end |}.

(** The message once the element found in it is written to. *)
Definition write_to (i text : jsstring) (p : part) (s : spot) (m : message)
  : message :=
  match p with
  | OfAvatar =>
      {| wrapper := wrapper m;
         avatar := write_in i text s (avatar m);
         body := body m |}
  | OfBody =>
      {| wrapper := wrapper m;
         avatar := avatar m;
         body := write_in i text s (body m) |}
  end.

Definition write_at (i text : jsstring) (t : place) (w : page) : page :=
  {| userInput := userInput w;
     chatMessages :=
       match part_of t with
       | OfAvatar =>
           update_avatar (message_of t) (write_in i text (spot_of t))
             (chatMessages w)
       | OfBody =>
           update_body (message_of t) (write_in i text (spot_of t))
             (chatMessages w)
       end;
     log := log w |}.

(** The [catch] of [sendMessage]. *)
Definition on_failure (w : page) : page :=
  match getElementById streaming_message w with
  | Some t =>
      emit (ShowConnectionError (message_of t))
        (write_at streaming_message connection_error t w)
  | None => w
  end.

(** [sendMessage] up to the [try]: the user's message is shown, the input
    is cleared and the placeholder of the answer is appended. *)
Definition prologue (text : jsstring) (w : page) : page :=
  let w1 := addMessage text true w in
  let w2 :=
    {| userInput := []; chatMessages := chatMessages w1; log := log w1 |} in
  let botMessageDiv :=
    {| wrapper := js "message";
       avatar := {| className := js "message-avatar bot-avatar";
                    id := [];
                    html := Text teacher |};
       body := {| className := js "bot-message";
                  id := streaming_message;
                  html := empty_html |} |} in
  emit Scroll (appendChild botMessageDiv w2).

Definition sendMessage (net : fetch_result) (w : page) : page :=
  let text := trim (userInput w) in
  if nonempty text then
    let w1 := prologue text w in
    let contentDiv := (List.length (chatMessages w1) - 1)%nat in
    let w2 := emit (Request text) w1 in
    match net with
    | NetworkError => on_failure w2
    | Response reads =>
        match read_loop contentDiv reads {| fullText := []; dom := w2 |} with
        | Completed c => dom c
        | Thrown c => on_failure (dom c)
        end
    end
  else w.

End Consumer.

(** ** Reading the stream as text *)

(** The event a line carries, if the consumer gets one out of it: the line
    starts with the prefix, the rest parses, and the value is not [null]. *)
Definition event_of_line (line : jsstring) : option JValue :=
  if startsWith line (js "data: ") then
    match JSON.parse (slice 6 line) with
    | Some JNull => None
    | Some data => Some data
    | None => None
    end
  else None.

Definition has_error (data : JValue) : bool :=
  ToBoolean (field (js "error") data).

Definition has_done (data : JValue) : bool :=
  ToBoolean (field (js "done") data).

(** A chunk is made of whole lines when it is empty or ends in a line feed. *)
Definition whole_lines (chunk : jsstring) : bool :=
  match rev chunk with
  | [] => true
  | c :: _ => c =? LF
  end.

(** No line is cut by a chunk boundary: every chunk but the last is made of
    whole lines. *)
Fixpoint aligned (chunks : list jsstring) : bool :=
  match chunks with
  | [] => true
  | c :: rest =>
      match rest with
      | [] => true
      | _ :: _ => whole_lines c && aligned rest
      end
  end.

Definition error_free_lines (lines : list jsstring) : bool :=
  forallb (fun line =>
             match event_of_line line with
             | Some data => negb (has_error data)
             | None => true
             end) lines.

(** No event of the text carries an error flag. *)
Definition error_free (text : jsstring) : bool :=
  error_free_lines (split_lines text).

Definition is_prefix (a b : jsstring) : Prop := exists t, b = a ++ t.

(** The running concatenations of [fragments] after [text]. *)
Fixpoint running (text : jsstring) (fragments : list jsstring)
  : list jsstring :=
  match fragments with
  | [] => []
  | f :: rest => (text ++ f) :: running (text ++ f) rest
  end.

(** The texts the log shows as the answer, oldest first. *)
Fixpoint text_updates (l : list effect) : list jsstring :=
  match l with
  | [] => []
  | ShowText _ t :: r => t :: text_updates r
  | _ :: r => text_updates r
  end.

(** Every write of [innerHTML] in the log: the message it goes to and what
    is written. *)
Fixpoint display_updates (l : list effect) : list (nat * Html) :=
  match l with
  | [] => []
  | ShowText k t :: r => (k, Formatted t) :: display_updates r
  | ShowError k :: r => (k, Formatted error_message) :: display_updates r
  | ShowConnectionError k :: r =>
      (k, Formatted connection_error) :: display_updates r
  | _ :: r => display_updates r
  end.

Fixpoint reads_made (l : list effect) : nat :=
  match l with
  | [] => O
  | Read :: r => S (reads_made r)
  | _ :: r => reads_made r
  end.

Section Stream.

Variable Number_toString : number -> jsstring.

(** The fragment an event carries: its [content], when truthy, as the text
    it converts to, when it does. *)
Definition content_of (data : JValue) : option jsstring :=
  match field (js "content") data with
  | Some v => if ToBoolean (Some v) then ToString Number_toString v else None
  | None => None
  end.

(** The [content] of the event is truthy and its conversion throws. *)
Definition content_throws (data : JValue) : bool :=
  match field (js "content") data with
  | Some v =>
      ToBoolean (Some v)
      && match ToString Number_toString v with
         | Some _ => false
         | None => true
         end
  | None => false
  end.

Definition fragments_of_lines (lines : list jsstring) : list jsstring :=
  flat_map (fun line =>
              match event_of_line line with
              | Some data =>
                  match content_of data with
                  | Some t => [t]
                  | None => []
                  end
              | None => []
              end) lines.

(** The content fragments of a text, line by line, in order. *)
Definition fragments (text : jsstring) : list jsstring :=
  fragments_of_lines (split_lines text).

(** The fragments the loop takes out of the lines of one chunk: those of the
    events before the first one that carries an error flag. *)
Fixpoint taken_of_lines (lines : list jsstring) : list jsstring :=
  match lines with
  | [] => []
  | line :: rest =>
      match event_of_line line with
      | Some data =>
          if has_error data then []
          else match content_of data with
               | Some t => t :: taken_of_lines rest
               | None => taken_of_lines rest
               end
      | None => taken_of_lines rest
      end
  end.

(** The fragments the loop takes out of a stream, in the order of arrival. *)
Fixpoint taken (reads : list read_result) : list jsstring :=
  match reads with
  | Chunk text :: rest => taken_of_lines (split_lines text) ++ taken rest
  | _ => []
  end.

(** The states of the loop after each line it takes, in order. *)
Fixpoint states_of_lines (k : nat) (lines : list jsstring) (c : consumer)
  : list consumer :=
  match lines with
  | [] => []
  | line :: rest =>
      match on_line Number_toString k line c with
      | (Break, c') => [c']
      | (Continue, c') => c' :: states_of_lines k rest c'
      end
  end.

Fixpoint states (k : nat) (reads : list read_result) (c : consumer)
  : list consumer :=
  match reads with
  | Chunk text :: rest =>
      let c1 := on_dom (emit Read) c in
      c1 :: states_of_lines k (split_lines text) c1
         ++ states k rest (for_lines Number_toString k (split_lines text) c1)
  | _ => [on_dom (emit Read) c]
  end.

(** The state of the loop once the given chunks are processed. *)
Fixpoint after_chunks (k : nat) (chunks : list jsstring) (c : consumer)
  : consumer :=
  match chunks with
  | [] => c
  | text :: rest =>
      after_chunks k rest
        (for_lines Number_toString k (split_lines text) (on_dom (emit Read) c))
  end.

End Stream.

End Chat.
Import Chat.

(** ** The search of the admin page *)

Record entry := {
  entry_id : N;
  category : jsstring;
  question : jsstring;
  answer : jsstring;
  source : jsstring;
  created_at : jsstring
}.

(** What [knowledgeList] shows: the notice that nothing matches, or the
    given entries in order. *)
Inductive listing :=
| NoMatches
| Items (items : list entry).

Definition shown (l : listing) : list entry :=
  match l with
  | NoMatches => []
  | Items items => items
  end.

(** The text of [searchResults]. *)
Inductive summary :=
| ShowingAll
| Found (count : nat) (term : option jsstring) (category : option jsstring).

(** The admin page.  [searchInput] and [categoryFilter] hold the value of
    the element, [searchResults] and [filteredCount] what the element shows;
    each is [None] when the page has no such element. *)
Record admin := {
  allKnowledge : list entry;
  searchInput : option jsstring;
  categoryFilter : option jsstring;
  knowledgeList : listing;
  searchResults : option summary;
  filteredCount : option nat
}.

Definition all : jsstring := js "all".

Definition displayKnowledge (knowledge : list entry) (a : admin) : admin :=
  {| allKnowledge := allKnowledge a;
     searchInput := searchInput a;
     categoryFilter := categoryFilter a;
     knowledgeList :=
       match knowledge with
       | [] => NoMatches
       | _ :: _ => Items knowledge
       end;
     searchResults := searchResults a;
     filteredCount := filteredCount a |}.

Definition updateSearchResults (searchTerm selected : jsstring) (count : nat)
    (a : admin) : admin :=
  match searchResults a with
  | None => a
  | Some _ =>
      {| allKnowledge := allKnowledge a;
         searchInput := searchInput a;
         categoryFilter := categoryFilter a;
         knowledgeList := knowledgeList a;
         searchResults :=
           Some (if negb (nonempty searchTerm) && jsstring_eqb selected all
                 then ShowingAll
                 else Found count
                        (if nonempty searchTerm then Some searchTerm else None)
                        (if jsstring_eqb selected all then None
                         else Some selected));
         filteredCount := filteredCount a |}
  end.

Definition updateFilteredCount (count : nat) (a : admin) : admin :=
  match filteredCount a with
  | None => a
  | Some _ =>
      {| allKnowledge := allKnowledge a;
         searchInput := searchInput a;
         categoryFilter := categoryFilter a;
         knowledgeList := knowledgeList a;
         searchResults := searchResults a;
         filteredCount := Some count |}
  end.

Section Admin.

(** [String.prototype.toLowerCase], the lower-casing of Unicode. *)
Variable toLowerCase : jsstring -> jsstring.

Definition searchTerm_of (a : admin) : jsstring :=
  match searchInput a with
  | Some value => toLowerCase value
  | None => []
  end.

Definition selectedCategory_of (a : admin) : jsstring :=
  match categoryFilter a with
  | Some value => value
  | None => all
  end.

Definition filterKnowledge (a : admin) : admin :=
  let searchTerm := searchTerm_of a in
  let selectedCategory := selectedCategory_of a in
  let filtered := allKnowledge a in
  let filtered :=
    if negb (jsstring_eqb selectedCategory all) then
      filter (fun item => jsstring_eqb (category item) selectedCategory)
        filtered
    else filtered in
  let filtered :=
    if nonempty searchTerm then
      filter (fun item =>
                includes (toLowerCase (question item)) searchTerm
                || includes (toLowerCase (answer item)) searchTerm
                || includes (toLowerCase (category item)) searchTerm
                || includes (toLowerCase (source item)) searchTerm) filtered
    else filtered in
  updateFilteredCount (List.length filtered)
    (updateSearchResults searchTerm selectedCategory (List.length filtered)
       (displayKnowledge filtered a)).

(** The entries the search is to show: those of the selected category, or
    of any when the selection is [all], that have the lower-cased search
    term in one of their four lower-cased fields. *)
Definition matching (searchTerm selected : jsstring) (item : entry) : bool :=
  (jsstring_eqb selected all || jsstring_eqb (category item) selected)
  && (includes (toLowerCase (question item)) searchTerm
      || includes (toLowerCase (answer item)) searchTerm
      || includes (toLowerCase (category item)) searchTerm
      || includes (toLowerCase (source item)) searchTerm).

End Admin.

(** Lower-casing of the letters A to Z, which is what [toLowerCase] does on
    ASCII text. *)
Definition ascii_lower (s : jsstring) : jsstring :=
  map (fun c => if (65 <=? c) && (c <=? 90) then c + 32 else c) s.

Definition is_ascii (c : code_unit) : bool := c <? 128.

(** The element the answer goes to shows the accumulated text. *)
Definition shows_text (k : nat) (c : consumer) : Prop :=
  displayed k (dom c) = Some (Formatted (fullText c)).

(** The accumulated text of [b] extends that of [a]. *)
Definition grows (a b : consumer) : Prop :=
  is_prefix (fullText a) (fullText b).

Definition state_of (o : outcome) : consumer :=
  match o with
  | Completed c => c
  | Thrown c => c
  end.

(** The last thing a log writes to the message at [k], or [h] when it
    writes nothing to it. *)
Definition last_written (k : nat) (h : Html) (l : list effect) : Html :=
  fold_left (fun h' u => if Nat.eqb (fst u) k then snd u else h')
    (display_updates l) h.

(** What the log has gained between the states [c] and [s]. *)
Definition since (c s : consumer) : list effect :=
  skipn (List.length (log (dom c))) (log (dom s)).

(** The message at [k] of the page holds what the log has last written
    to it after [l0], or [h] when it wrote nothing. *)
Definition tracks (k : nat) (h : Html) (l0 : list effect) (w : page) : Prop :=
  exists l,
    log w = l0 ++ l /\ displayed k w = Some (last_written k h l).

(** The event without its members of the given name. *)
Definition delete (key : jsstring) (data : JValue) : JValue :=
  match data with
  | JObject ms =>
      JObject (filter (fun m => negb (jsstring_eqb (fst m) key)) ms)
  | _ => data
  end.

(** A page with the given text in the input field and no message yet. *)
Definition fresh_page (text : jsstring) : page :=
  {| userInput := text; chatMessages := []; log := [] |}.

(** The state the read loop of [sendMessage] starts in on that page. *)
Definition first_state (text : jsstring) : consumer :=
  {| fullText := [];
     dom := emit (Request (trim text))
              (prologue (trim text) (fresh_page text)) |}.

(** A stream of two chunks of whole lines: two fragments, then the
    completion. *)
Definition hello_chunks : list jsstring :=
  [jq "data: {'content':'Hel'}" ++ [LF];
   jq "data: {'content':'lo'}" ++ [LF] ++ jq "data: {'done':true}" ++ [LF]].

(** The same text with the first line cut in two by the chunk boundary. *)
Definition cut_chunks : list jsstring :=
  [jq "data: {'content':'He"; jq "llo'}" ++ [LF]].

(** Two entries of the knowledge base. *)
Definition sample_knowledge : list entry :=
  [{| entry_id := 1; category := js "Fees"; question := js "How much?";
      answer := js "It depends on the course."; source := js "Handbook";
      created_at := js "2024-01-01" |};
   {| entry_id := 2; category := js "Library"; question := js "Opening hours?";
      answer := js "Nine to nine."; source := js "Website";
      created_at := js "2024-01-02" |}].

Definition sample_admin : admin :=
  {| allKnowledge := sample_knowledge;
     searchInput := Some [];
     categoryFilter := Some all;
     knowledgeList := NoMatches;
     searchResults := Some ShowingAll;
     filteredCount := Some O |}.

(** The admin page with the two entries loaded and [term] in the search
    box. *)
Definition searching (term : jsstring) : admin :=
  {| allKnowledge := sample_knowledge;
     searchInput := Some term;
     categoryFilter := Some all;
     knowledgeList := NoMatches;
     searchResults := Some ShowingAll;
     filteredCount := Some O |}.

(** The second of the two entries. *)
Definition library_entry : entry :=
  {| entry_id := 2; category := js "Library"; question := js "Opening hours?";
     answer := js "Nine to nine."; source := js "Website";
     created_at := js "2024-01-02" |}.

(** ** What a run leaves alone *)

(** The texts of the requests in the log, oldest first. *)
Fixpoint requests (l : list effect) : list jsstring :=
  match l with
  | [] => []
  | Request t :: r => t :: requests r
  | _ :: r => requests r
  end.

(** [w'] differs from [w] at most in the message at [k] and in what the
    log tells besides the requests. *)
Definition frame (k : nat) (w w' : page) : Prop :=
  List.length (chatMessages w') = List.length (chatMessages w)
  /\ (forall j, j <> k ->
        nth_error (chatMessages w') j = nth_error (chatMessages w) j)
  /\ userInput w' = userInput w
  /\ requests (log w') = requests (log w).

(** The message [addMessage] makes of the user's text. *)
Definition user_message (text : jsstring) : message :=
  {| wrapper := js "message user";
     avatar := {| className := js "message-avatar user-avatar"; id := [];
                  html := Text student |};
     body := {| className := js "user-message"; id := [];
                html := Text text |} |}.

(** A page on which an answer was streamed and never completed: it still
    has the id of a streaming answer.  The user has typed again. *)
Definition unfinished_page : page :=
  {| userInput := js "again";
     chatMessages :=
       [user_message (js "hello");
        {| wrapper := js "message";
           avatar := {| className := js "message-avatar bot-avatar";
                        id := []; html := Text teacher |};
           body := {| className := js "bot-message";
                      id := streaming_message;
                      html := Formatted (js "Hello") |} |}];
     log := [] |}.

(** The same page once the answer was completed: its id is gone. *)
Definition finished_page : page :=
  {| userInput := js "again";
     chatMessages :=
       [user_message (js "hello");
        {| wrapper := js "message";
           avatar := {| className := js "message-avatar bot-avatar";
                        id := []; html := Text teacher |};
           body := {| className := js "bot-message";
                      id := [];
                      html := Formatted (js "Hello") |} |}];
     log := [] |}.

(** What the parser makes of markup that has neither a tag nor a character
    reference in it, as [Hello]: one text node. *)
Definition plain_text (tagName markup : jsstring) : list node :=
  [TextNode markup].

(** Markup that gives an element the id of a streaming answer, and an
    event that carries it with the completion. *)
Definition marked_markup : jsstring := js "<b id=streaming-message>x</b>".

Definition marked_line : jsstring :=
  jq "data: {'content':'" ++ marked_markup ++ jq "','done':true}".

(** What the parser makes of that markup, and of text without markup. *)
Definition sample_parser (tagName markup : jsstring) : list node :=
  if jsstring_eqb markup marked_markup
  then [Element (js "b") [(js "id", streaming_message)] [TextNode (js "x")]]
  else [TextNode markup].

(** ** The typing effect of the first message *)

Module Typing.

(** The effect while it runs: the [i] of the closure, the text of the
    message, how often the chat was scrolled to its end, the delay of the
    timer that is pending, if one is, and the time spent so far. *)
Record state := {
  i : nat;
  textContent : jsstring;
  scrolled : nat;
  timer : option nat;
  elapsed : nat
}.

(** [text.charAt(i)] *)
Definition charAt (text : jsstring) (n : nat) : jsstring :=
  match nth_error text n with
  | Some c => [c]
  | None => []
  end.

(** The listener of [load], for a first message that reads [text]: the
    message is emptied and [type] is to run after 400 ms. *)
Definition on_load : state :=
  {| i := 0; textContent := []; scrolled := 0; timer := Some 400%nat;
     elapsed := 0 |}.

(** One run of [type], when its timer fires. *)
Definition type (text : jsstring) (t : state) : state :=
  let now :=
    (elapsed t + match timer t with Some d => d | None => 0 end)%nat in
  if (i t <? List.length text)%nat then
    {| i := S (i t);
       textContent := textContent t ++ charAt text (i t);
       scrolled := S (scrolled t);
       timer := Some 20%nat;
       elapsed := now |}
  else
    {| i := i t; textContent := textContent t; scrolled := scrolled t;
       timer := None; elapsed := now |}.

(** The effect after [n] timers have fired, or all of them if they are
    fewer. *)
Fixpoint after (n : nat) (text : jsstring) (t : state) : state :=
  match n with
  | O => t
  | S m =>
      match timer t with
      | Some _ => after m text (type text t)
      | None => t
      end
  end.

End Typing.

(** ** The admin page and the server *)

Section Search.

Variable toLowerCase : jsstring -> jsstring.

(** [clearSearch].  The select of the category is taken to have the option
    [all], the value the code compares it with. *)
Definition clearSearch (a : admin) : admin :=
  filterKnowledge toLowerCase
    {| allKnowledge := allKnowledge a;
       searchInput :=
         match searchInput a with Some _ => Some [] | None => None end;
       categoryFilter :=
         match categoryFilter a with Some _ => Some all | None => None end;
       knowledgeList := knowledgeList a;
       searchResults := searchResults a;
       filteredCount := filteredCount a |}.

End Search.

Module Dashboard.

(** What the page reads of a response.  [json] is what [response.json()]
    resolves to, a list of entries, or [None] when it rejects. *)
Record response := {
  redirected : bool;
  url : jsstring;
  content_type : option jsstring;
  json : option (list entry)
}.

(** What [fetch] gives. *)
Inductive fetched :=
| Rejected
| Resolved (r : response).

(** The admin page with what the loading of the knowledge writes.
    [load_failed] tells that [knowledgeList] shows the notice of a failed
    load, not the list of [view]; [location] is the address the page was
    sent to, if it was; [totalKnowledge] and [totalCategories] are the two
    counters of the statistics, [None] when the page has no such element;
    [console] counts the calls of [console.error]. *)
Record dashboard := {
  view : admin;
  load_failed : bool;
  location : option jsstring;
  totalKnowledge : option nat;
  totalCategories : option nat;
  console : nat
}.

Definition login : jsstring := js "/admin/login".

Definition with_view (v : admin) (failed : bool) (d : dashboard) : dashboard :=
  {| view := v; load_failed := failed; location := location d;
     totalKnowledge := totalKnowledge d;
     totalCategories := totalCategories d; console := console d |}.

Definition redirect (d : dashboard) : dashboard :=
  {| view := view d; load_failed := load_failed d; location := Some login;
     totalKnowledge := totalKnowledge d;
     totalCategories := totalCategories d; console := console d |}.

Definition console_error (d : dashboard) : dashboard :=
  {| view := view d; load_failed := load_failed d; location := location d;
     totalKnowledge := totalKnowledge d;
     totalCategories := totalCategories d; console := S (console d) |}.

Definition checkAuthentication (r : response) (d : dashboard)
  : bool * dashboard :=
  if redirected r && includes (url r) login then (false, redirect d)
  else (true, d).

(** [!contentType || !contentType.includes('application/json')] *)
Definition not_json (r : response) : bool :=
  match content_type r with
  | Some t => negb (nonempty t) || negb (includes t (js "application/json"))
  | None => true
  end.

Definition set_allKnowledge (l : list entry) (a : admin) : admin :=
  {| allKnowledge := l;
     searchInput := searchInput a;
     categoryFilter := categoryFilter a;
     knowledgeList := knowledgeList a;
     searchResults := searchResults a;
     filteredCount := filteredCount a |}.

Definition loadKnowledge (f : fetched) (d : dashboard) : dashboard :=
  let failed := console_error (with_view (view d) true d) in
  match f with
  | Rejected => failed
  | Resolved r =>
      match checkAuthentication r d with
      | (false, d1) => d1
      | (true, d1) =>
          if not_json r then redirect d1
          else
            match json r with
            | None => failed
            | Some l =>
                with_view
                  (updateFilteredCount (List.length l)
                     (displayKnowledge l (set_allKnowledge l (view d1))))
                  false d1
            end
      end
  end.

(** [new Set(values)]: each value once, in the order of its first
    occurrence. *)
Fixpoint set_of (seen values : list jsstring) : list jsstring :=
  match values with
  | [] => seen
  | x :: r =>
      if existsb (jsstring_eqb x) seen then set_of seen r
      else set_of (seen ++ [x]) r
  end.

(** [updateStats].  The three counters are written without a look whether
    the element is there: where it is not, the write throws and the [catch]
    logs it. *)
Definition updateStats (f : fetched) (d : dashboard) : dashboard :=
  match f with
  | Rejected => console_error d
  | Resolved r =>
      match checkAuthentication r d with
      | (false, d1) => d1
      | (true, d1) =>
          if not_json r then d1
          else
            match json r with
            | None => console_error d1
            | Some knowledge =>
                match totalKnowledge d1 with
                | None => console_error d1
                | Some _ =>
                    let d2 :=
                      {| view := view d1; load_failed := load_failed d1;
                         location := location d1;
                         totalKnowledge := Some (List.length knowledge);
                         totalCategories := totalCategories d1;
                         console := console d1 |} in
                    match totalCategories d2 with
                    | None => console_error d2
                    | Some _ =>
                        let categories := set_of [] (map category knowledge) in
                        let d3 :=
                          {| view := view d2; load_failed := load_failed d2;
                             location := location d2;
                             totalKnowledge := totalKnowledge d2;
                             totalCategories := Some (List.length categories);
                             console := console d2 |} in
                        match filteredCount (view d3) with
                        | None => console_error d3
                        | Some _ =>
                            with_view
                              (updateFilteredCount (List.length knowledge)
                                 (view d3))
                              (load_failed d3) d3
                        end
                    end
                end
            end
      end
  end.

(** What [knowledgeList] shows on the dashboard: the entries of the list,
    or none under the notice of a failed load. *)
Definition listed (d : dashboard) : list entry :=
  if load_failed d then [] else shown (knowledgeList (view d)).

End Dashboard.

(** What happens on the admin page, one thing after the other.  A load and
    an update of the statistics each write to the page in one go, when the
    answer of the server is there, so that two of them under way at once
    come down to one after the other, in the order they complete. *)
Inductive action :=
| Load (f : Dashboard.fetched)
| Stats (f : Dashboard.fetched)
| Input (term : jsstring)
| Clear.

Section Actions.

Variable toLowerCase : jsstring -> jsstring.

(** The listener of [input] on the search box, once the box reads [term]. *)
Definition on_input (term : jsstring) (a : admin) : admin :=
  match searchInput a with
  | Some _ =>
      filterKnowledge toLowerCase
        {| allKnowledge := allKnowledge a;
           searchInput := Some term;
           categoryFilter := categoryFilter a;
           knowledgeList := knowledgeList a;
           searchResults := searchResults a;
           filteredCount := filteredCount a |}
  | None => a
  end.

Definition step (x : action) (d : Dashboard.dashboard) : Dashboard.dashboard :=
  match x with
  | Load f => Dashboard.loadKnowledge f d
  | Stats f => Dashboard.updateStats f d
  | Input term =>
      match searchInput (Dashboard.view d) with
      | Some _ =>
          Dashboard.with_view (on_input term (Dashboard.view d)) false d
      | None => d
      end
  | Clear =>
      Dashboard.with_view (clearSearch toLowerCase (Dashboard.view d)) false d
  end.

Definition run (xs : list action) (d : Dashboard.dashboard)
  : Dashboard.dashboard :=
  fold_left (fun d x => step x d) xs d.

End Actions.

(** The dashboard before anything is loaded. *)
Definition empty_dashboard : Dashboard.dashboard :=
  {| Dashboard.view :=
       {| allKnowledge := []; searchInput := Some [];
          categoryFilter := Some all; knowledgeList := NoMatches;
          searchResults := Some ShowingAll; filteredCount := Some O |};
     Dashboard.load_failed := false;
     Dashboard.location := None;
     Dashboard.totalKnowledge := Some O;
     Dashboard.totalCategories := Some O;
     Dashboard.console := O |}.

(** An answer of the server with the two entries. *)
Definition sample_response : Dashboard.response :=
  {| Dashboard.redirected := false;
     Dashboard.url := js "/get_knowledge";
     Dashboard.content_type := Some (js "application/json");
     Dashboard.json := Some sample_knowledge |}.

(** * Properties *)

(** ** The parser never runs out of fuel *)

Lemma skip_ws_length (s : jsstring) :
  (List.length (skip_ws s) <= List.length s)%nat.
Proof.
  induction s as [|c r IH]; cbn; [lia|].
  destruct (is_ws c); cbn; lia.
Qed.

Lemma skip_ws_cons (s r : jsstring) (c : code_unit) :
  skip_ws s = c :: r -> (S (List.length r) <= List.length s)%nat.
Proof.
  intros H. pose proof (skip_ws_length s) as Hl. rewrite H in Hl. exact Hl.
Qed.

Lemma digits_length (s : jsstring) :
  forall acc len m k r,
    digits acc len s = (m, k, r) -> (List.length r <= List.length s)%nat.
Proof.
  induction s as [|c s IH]; intros acc len m k r H; cbn in H.
  - inversion H. cbn. lia.
  - destruct (digit c).
    + apply IH in H. cbn. lia.
    + inversion H. cbn. lia.
Qed.

Ltac split_matches :=
  repeat match goal with
    | H : context [match ?x with _ => _ end] |- _ => destruct x eqn:?
    | H : context [if ?x then _ else _] |- _ => destruct x eqn:?
    end.

Lemma parse_number_length (s r : jsstring) (n : number) :
  parse_number s = Parsed n r -> (List.length r <= List.length s)%nat.
Proof.
  unfold parse_number. intros H. split_matches; try discriminate;
    repeat match goal with
      | E : digits _ _ _ = _ |- _ => apply digits_length in E
      | E : (_, _) = (_, _) |- _ => inversion E; clear E; subst
      | E : Some _ = Some _ |- _ => inversion E; clear E; subst
      | E : Parsed _ _ = Parsed _ _ |- _ => inversion E; clear E; subst
      end;
    cbn [List.length] in *; lia.
Qed.

Lemma parse_number_fuel (s : jsstring) : parse_number s <> OutOfFuel.
Proof.
  unfold parse_number. intros H. split_matches; discriminate.
Qed.

Lemma parse_chars_length (s : jsstring) :
  forall t r,
    parse_chars s = Parsed t r -> (List.length r <= List.length s)%nat.
Proof.
  induction s as [s IH] using (well_founded_induction
                                 (Wf_nat.well_founded_ltof _ (@List.length _))).
  unfold Wf_nat.ltof in IH.
  intros t r H. destruct s as [|c s]; [discriminate|]. cbn [parse_chars] in H.
  split_matches; try discriminate;
    repeat match goal with
      | E : Parsed _ _ = Parsed _ _ |- _ => inversion E; clear E; subst
      | E : parse_chars _ = Parsed _ _ |- _ =>
          apply IH in E; [|cbn [List.length]; lia]
      end;
    cbn [List.length] in *; lia.
Qed.

Lemma parse_chars_fuel (s : jsstring) : parse_chars s <> OutOfFuel.
Proof.
  induction s as [s IH] using (well_founded_induction
                                 (Wf_nat.well_founded_ltof _ (@List.length _))).
  unfold Wf_nat.ltof in IH.
  intros H. destruct s as [|c s]; [discriminate|]. cbn [parse_chars] in H.
  split_matches; try discriminate;
    match goal with
    | E : parse_chars ?x = OutOfFuel |- _ =>
        apply (IH x); [cbn [List.length]; lia|exact E]
    end.
Qed.

Lemma parse_literal_length (word s r : jsstring) (v w : JValue) :
  parse_literal word v s = Parsed w r -> (List.length r <= List.length s)%nat.
Proof.
  unfold parse_literal. destruct (startsWith s word); [|discriminate].
  intros H. inversion H. rewrite length_skipn. lia.
Qed.

Lemma parse_literal_fuel (word s : jsstring) (v : JValue) :
  parse_literal word v s <> OutOfFuel.
Proof. unfold parse_literal. now destruct (startsWith s word). Qed.

Ltac length_facts :=
  repeat match goal with
    | E : Parsed _ _ = Parsed _ _ |- _ => inversion E; clear E; subst
    | E : skip_ws _ = _ :: _ |- _ => apply skip_ws_cons in E
    | E : parse_chars _ = Parsed _ _ |- _ => apply parse_chars_length in E
    | E : parse_number _ = Parsed _ _ |- _ => apply parse_number_length in E
    | E : parse_literal _ _ _ = Parsed _ _ |- _ =>
        apply parse_literal_length in E
    end.

(** What is left after a value, the elements of an array or the members of
    an object is no longer than what there was. *)
Lemma parse_value_length (fuel : nat) :
  (forall s v r,
      parse_value fuel s = Parsed v r -> (List.length r <= List.length s)%nat)
  /\ (forall s vs r,
        parse_elements fuel s = Parsed vs r ->
        (List.length r <= List.length s)%nat)
  /\ (forall s ms r,
        parse_members fuel s = Parsed ms r ->
        (List.length r <= List.length s)%nat).
Proof.
  induction fuel as [|fuel [IHv [IHe IHm]]];
    [repeat split; intros; discriminate|].
  repeat split; intros s v r H; cbn in H;
    split_matches; try discriminate; length_facts;
    repeat match goal with
      | E : parse_value fuel _ = Parsed _ _ |- _ => apply IHv in E
      | E : parse_elements fuel _ = Parsed _ _ |- _ => apply IHe in E
      | E : parse_members fuel _ = Parsed _ _ |- _ => apply IHm in E
      end;
    cbn [List.length] in *; lia.
Qed.

Lemma parse_value_fuel (fuel : nat) :
  (forall s, (2 * List.length s + 1 <= fuel)%nat ->
             parse_value fuel s <> OutOfFuel)
  /\ (forall s, (2 * List.length s + 2 <= fuel)%nat ->
                parse_elements fuel s <> OutOfFuel)
  /\ (forall s, (2 * List.length s + 2 <= fuel)%nat ->
                parse_members fuel s <> OutOfFuel).
Proof.
  induction fuel as [|fuel [IHv [IHe IHm]]];
    [repeat split; intros; lia|].
  destruct (parse_value_length fuel) as [Lv [Le Lm]].
  repeat split; intros s Hs H; cbn in H;
    split_matches; try discriminate; length_facts;
    repeat match goal with
      | E : parse_value fuel _ = Parsed _ _ |- _ => apply Lv in E
      | E : parse_elements fuel _ = Parsed _ _ |- _ => apply Le in E
      | E : parse_members fuel _ = Parsed _ _ |- _ => apply Lm in E
      end;
    match goal with
    | E : parse_chars _ = OutOfFuel |- _ => now apply parse_chars_fuel in E
    | E : parse_number _ = OutOfFuel |- _ => now apply parse_number_fuel in E
    | E : parse_literal _ _ _ = OutOfFuel |- _ =>
        now apply parse_literal_fuel in E
    | E : parse_value fuel _ = OutOfFuel |- _ =>
        apply IHv in E; [exact E|cbn [List.length] in *; lia]
    | E : parse_elements fuel _ = OutOfFuel |- _ =>
        apply IHe in E; [exact E|cbn [List.length] in *; lia]
    | E : parse_members fuel _ = OutOfFuel |- _ =>
        apply IHm in E; [exact E|cbn [List.length] in *; lia]
    end.
Qed.

(** [JSON.parse] is [None] only for text that is not JSON. *)
Lemma parse_fuel_enough (s : jsstring) :
  parse_value (S (2 * List.length s)) s <> OutOfFuel.
Proof. apply (parse_value_fuel (S (2 * List.length s))). lia. Qed.

(** So [JSON.parse] throws only on text that is not a JSON value, or that
    has something other than white space after one. *)
Lemma parse_none (s : jsstring) :
  JSON.parse s = None ->
  parse_value (S (2 * List.length s)) s = SyntaxError
  \/ exists v r,
       parse_value (S (2 * List.length s)) s = Parsed v r
       /\ skip_ws r <> [].
Proof.
  unfold JSON.parse. pose proof (parse_fuel_enough s) as Hf.
  destruct (parse_value (S (2 * List.length s)) s) as [v r| |];
    [|now left|contradiction].
  destruct (skip_ws r) as [|c r'] eqn:E; [discriminate|].
  intros _. right. exists v, r. split; [reflexivity|].
  rewrite E. discriminate.
Qed.

(** ** Lines and chunks *)

Lemma split_lines_nonempty (s : jsstring) : split_lines s <> [].
Proof.
  destruct s as [|c r]; simpl; [discriminate|].
  destruct (c =? LF); [discriminate|].
  destruct (split_lines r); discriminate.
Qed.

Lemma split_lines_app_LF (a b : jsstring) :
  split_lines (a ++ LF :: b) = split_lines a ++ split_lines b.
Proof.
  induction a as [|c a IH]; simpl.
  - reflexivity.
  - destruct (c =? LF).
    + now rewrite IH.
    + rewrite IH. pose proof (split_lines_nonempty a) as Hne.
      destruct (split_lines a); [contradiction|reflexivity].
Qed.

Lemma whole_lines_inv (c : jsstring) :
  whole_lines c = true -> c = [] \/ exists a, c = a ++ [LF].
Proof.
  unfold whole_lines. intros H.
  rewrite <- (rev_involutive c).
  destruct (rev c) as [|x l]; [now left|right].
  apply N.eqb_eq in H. subst x. now exists (rev l).
Qed.

(** What a chunk of whole lines splits into, alone and before more text. *)
Lemma split_lines_whole (c : jsstring) :
  whole_lines c = true ->
  exists ls, split_lines c = ls ++ [[]]
             /\ forall b, split_lines (c ++ b) = ls ++ split_lines b.
Proof.
  intros H. destruct (whole_lines_inv c H) as [-> | [a ->]].
  - exists []. split; reflexivity.
  - exists (split_lines a). split.
    + apply (split_lines_app_LF a []).
    + intros b. rewrite <- app_assoc. apply split_lines_app_LF.
Qed.

Lemma event_of_empty_line : event_of_line [] = None.
Proof. reflexivity. Qed.

Lemma error_free_app (c b : jsstring) :
  whole_lines c = true ->
  error_free (c ++ b) = error_free c && error_free b.
Proof.
  intros H. destruct (split_lines_whole c H) as [ls [Hc Hcb]].
  unfold error_free, error_free_lines. rewrite Hcb, Hc.
  rewrite !forallb_app. cbn [forallb]. rewrite event_of_empty_line.
  now rewrite !andb_true_r.
Qed.

(** ** The page *)

Lemma nth_error_update_body (f : element -> element) (ms : list message)
    (j k : nat) :
  nth_error (update_body j f ms) k
  = if Nat.eqb k j
    then option_map
           (fun m => {| wrapper := wrapper m; avatar := avatar m;
                        body := f (body m) |})
           (nth_error ms k)
    else nth_error ms k.
Proof.
  revert j k. induction ms as [|m r IH]; intros j k.
  - destruct k, j; simpl; try reflexivity. now destruct (Nat.eqb k j).
  - destruct j, k; simpl; try reflexivity. apply IH.
Qed.

Lemma length_update_body (f : element -> element) (ms : list message)
    (j : nat) :
  List.length (update_body j f ms) = List.length ms.
Proof.
  revert j. induction ms as [|m r IH]; intros [|j]; simpl; auto.
Qed.

Lemma displayed_emit (k : nat) (e : effect) (w : page) :
  displayed k (emit e w) = displayed k w.
Proof. reflexivity. Qed.

Lemma displayed_set_id (k j : nat) (i : jsstring) (w : page) :
  displayed k (set_id j i w) = displayed k w.
Proof.
  unfold displayed, set_id. simpl. rewrite nth_error_update_body.
  destruct (Nat.eqb k j); [|reflexivity].
  now destruct (nth_error (chatMessages w) k).
Qed.

Lemma displayed_set_innerHTML (k : nat) (h h0 : Html) (w : page) :
  displayed k w = Some h0 ->
  displayed k (set_innerHTML k h w) = Some h.
Proof.
  unfold displayed, set_innerHTML. simpl. rewrite nth_error_update_body.
  rewrite Nat.eqb_refl.
  destruct (nth_error (chatMessages w) k); [reflexivity|discriminate].
Qed.

Lemma marker_emit (k : nat) (e : effect) (w : page) :
  marker k (emit e w) = marker k w.
Proof. reflexivity. Qed.

Lemma marker_set_innerHTML (k j : nat) (h : Html) (w : page) :
  marker k (set_innerHTML j h w) = marker k w.
Proof.
  unfold marker, set_innerHTML. simpl. rewrite nth_error_update_body.
  destruct (Nat.eqb k j); [|reflexivity].
  now destruct (nth_error (chatMessages w) k).
Qed.

Lemma marker_set_id (k : nat) (i i0 : jsstring) (w : page) :
  marker k w = Some i0 ->
  marker k (set_id k i w) = Some i.
Proof.
  unfold marker, set_id. simpl. rewrite nth_error_update_body.
  rewrite Nat.eqb_refl.
  destruct (nth_error (chatMessages w) k); [reflexivity|discriminate].
Qed.

Lemma nth_error_last_of_two (A : Type) (l : list A) (x y : A) :
  nth_error ((l ++ [x]) ++ [y]) (S (List.length l)) = Some y.
Proof.
  rewrite nth_error_app2 by (rewrite length_app; simpl; lia).
  rewrite length_app.
  replace (S (List.length l) - (List.length l + List.length [x]))%nat
    with O by (cbn [List.length]; lia).
  reflexivity.
Qed.

(** The placeholder of the answer is the last child after the prologue. *)
Lemma prologue_placeholder (text : jsstring) (w : page) :
  let w1 := prologue text w in
  (List.length (chatMessages w1) - 1)%nat = S (List.length (chatMessages w))
  /\ displayed (S (List.length (chatMessages w))) w1 = Some empty_html
  /\ marker (S (List.length (chatMessages w))) w1 = Some streaming_message.
Proof.
  unfold prologue, addMessage, displayed, marker, emit, appendChild.
  cbn [chatMessages].
  rewrite nth_error_last_of_two, !length_app. simpl.
  repeat split. lia.
Qed.

Lemma jsstring_eqb_eq (a b : jsstring) : jsstring_eqb a b = true <-> a = b.
Proof.
  revert b. induction a as [|x a IH]; intros [|y b]; cbn;
    try (split; [discriminate|discriminate]); [tauto|].
  rewrite andb_true_iff, N.eqb_eq, IH. split.
  - now intros [-> ->].
  - intros H. inversion H. auto.
Qed.

Lemma lookup_delete (key del : jsstring) (ms : list (jsstring * JValue)) :
  jsstring_eqb del key = false ->
  lookup key (filter (fun m => negb (jsstring_eqb (fst m) del)) ms)
  = lookup key ms.
Proof.
  intros Hne. induction ms as [|[k0 v0] r IH]; [reflexivity|].
  cbn [filter fst lookup]. destruct (jsstring_eqb k0 del) eqn:E; cbn [negb].
  - apply jsstring_eqb_eq in E. subst k0. rewrite IH, Hne.
    now destruct (lookup key r).
  - cbn [lookup]. now rewrite IH.
Qed.

Lemma lookup_deleted (del : jsstring) (ms : list (jsstring * JValue)) :
  lookup del (filter (fun m => negb (jsstring_eqb (fst m) del)) ms) = None.
Proof.
  induction ms as [|[k0 v0] r IH]; [reflexivity|].
  cbn [filter fst]. destruct (jsstring_eqb k0 del) eqn:E; cbn [negb].
  - exact IH.
  - cbn [lookup]. now rewrite IH, E.
Qed.

Lemma nth_error_update_avatar (f : element -> element) (ms : list message)
    (j k : nat) :
  nth_error (update_avatar j f ms) k
  = if Nat.eqb k j
    then option_map
           (fun m => {| wrapper := wrapper m; avatar := f (avatar m);
                        body := body m |})
           (nth_error ms k)
    else nth_error ms k.
Proof.
  revert j k. induction ms as [|m r IH]; intros j k.
  - destruct k, j; simpl; try reflexivity. now destruct (Nat.eqb k j).
  - destruct j, k; simpl; try reflexivity. apply IH.
Qed.

Lemma length_update_avatar (f : element -> element) (ms : list message)
    (j : nat) :
  List.length (update_avatar j f ms) = List.length ms.
Proof.
  revert j. induction ms as [|m r IH]; intros [|j]; simpl; auto.
Qed.

Section Lookup.

Variable parseFragment : jsstring -> jsstring -> list node.

Local Abbreviation find_in := (find_in parseFragment).
Local Abbreviation find_in_message := (find_in_message parseFragment).
Local Abbreviation find_id := (find_id parseFragment).
Local Abbreviation getElementById := (getElementById parseFragment).

(** [getElementById] finds the first element that has the id. *)
Lemma find_id_first (i : jsstring) (ms : list message) :
  match find_id i ms with
  | Some t =>
      (exists m,
          nth_error ms (message_of t) = Some m
          /\ find_in_message i m = Some (part_of t, spot_of t))
      /\ forall j m,
           (j < message_of t)%nat ->
           nth_error ms j = Some m ->
           find_in_message i m = None
  | None => forall j m, nth_error ms j = Some m -> find_in_message i m = None
  end.
Proof.
  induction ms as [|m0 r IH]; cbn [Chat.find_id].
  - intros [|j] m; discriminate.
  - destruct (find_in_message i m0) as [[p s]|] eqn:E.
    + cbn [message_of part_of spot_of]. split.
      * exists m0. split; [reflexivity|exact E].
      * intros j m Hj. lia.
    + destruct (find_id i r) as [t|]; cbn [option_map].
      * destruct IH as [[m [Hn Hi]] Hfirst]. split.
        -- exists m. split; assumption.
        -- intros [|j] m' Hj Hnth; cbn in Hnth.
           ++ congruence.
           ++ apply (Hfirst j m'); [cbn in Hj; lia|exact Hnth].
      * intros [|j] m' Hnth; cbn in Hnth; [congruence|].
        apply (IH j m' Hnth).
Qed.

(** A message that holds an element with the id is found, or one before
    it is. *)
Lemma find_id_found (i : jsstring) (ms : list message) (k : nat) (m : message) :
  nth_error ms k = Some m ->
  find_in_message i m <> None ->
  exists t, find_id i ms = Some t /\ (message_of t <= k)%nat.
Proof.
  intros Hn Hi. pose proof (find_id_first i ms) as H.
  destruct (find_id i ms) as [t|].
  - exists t. split; [reflexivity|].
    destruct (Nat.le_gt_cases (message_of t) k) as [Hle|Hgt]; [exact Hle|].
    destruct H as [_ Hfirst]. now destruct (Hi (Hfirst k m Hgt Hn)).
  - now destruct (Hi (H k m Hn)).
Qed.

(** The text of a message that has the id holds an element with it. *)
Lemma find_in_message_body (i : jsstring) (m : message) :
  id (body m) = i -> find_in_message i m <> None.
Proof.
  intros H. unfold Chat.find_in_message.
  destruct (find_in i (avatar m)); [discriminate|].
  unfold Chat.find_in. rewrite H.
  assert (E : jsstring_eqb i i = true) by now apply jsstring_eqb_eq.
  rewrite E. discriminate.
Qed.

(** A message made of two texts holds no element with an id. *)
Lemma find_in_message_texts (i : jsstring) (m : message) (a b : jsstring) :
  i <> [] ->
  id (avatar m) = [] -> html (avatar m) = Text a ->
  id (body m) = [] -> html (body m) = Text b ->
  find_in_message i m = None.
Proof.
  intros Hi Ha Hta Hb Htb. unfold Chat.find_in_message, Chat.find_in.
  rewrite Ha, Hta, Hb, Htb.
  assert (E : jsstring_eqb [] i = false).
  { destruct (jsstring_eqb [] i) eqn:E; [|reflexivity].
    apply jsstring_eqb_eq in E. congruence. }
  rewrite E. cbn [children].
  now destruct a, b.
Qed.

End Lookup.

Lemma filter_filter (A : Type) (f g : A -> bool) (l : list A) :
  filter f (filter g l) = filter (fun x => g x && f x) l.
Proof.
  induction l as [|x l IH]; [reflexivity|].
  cbn [filter]. destruct (g x); cbn [andb filter]; now rewrite IH.
Qed.

Lemma filter_all (A : Type) (f : A -> bool) (l : list A) :
  (forall x, f x = true) -> filter f l = l.
Proof.
  intros H. induction l as [|x l IH]; [reflexivity|].
  cbn [filter]. now rewrite H, IH.
Qed.

Lemma includes_empty (s : jsstring) : includes s [] = true.
Proof. destruct s; reflexivity. Qed.

Section StreamFacts.

Variable Number_toString : number -> jsstring.
Variable parseFragment : jsstring -> jsstring -> list node.

Local Abbreviation getElementById := (getElementById parseFragment).
Local Abbreviation on_failure := (on_failure parseFragment).
Local Abbreviation content_throws := (content_throws Number_toString).

Local Abbreviation on_fields := (on_fields Number_toString).
Local Abbreviation on_event := (on_event Number_toString).
Local Abbreviation on_line := (on_line Number_toString).
Local Abbreviation for_lines := (for_lines Number_toString).
Local Abbreviation read_loop := (read_loop Number_toString).
Local Abbreviation sendMessage :=
  (sendMessage Number_toString parseFragment).
Local Abbreviation content_of := (content_of Number_toString).
Local Abbreviation fragments_of_lines := (fragments_of_lines Number_toString).
Local Abbreviation fragments := (fragments Number_toString).
Local Abbreviation taken_of_lines := (taken_of_lines Number_toString).
Local Abbreviation taken := (taken Number_toString).
Local Abbreviation states_of_lines := (states_of_lines Number_toString).
Local Abbreviation states := (states Number_toString).
Local Abbreviation after_chunks := (after_chunks Number_toString).

Lemma on_event_not_null (k : nat) (data : JValue) (c : consumer) :
  data <> JNull -> on_event k data c = on_fields k data c.
Proof. destruct data; [contradiction| | | | |]; reflexivity. Qed.

Lemma event_of_line_not_null (line : jsstring) (data : JValue) :
  event_of_line line = Some data -> data <> JNull.
Proof.
  unfold event_of_line.
  destruct (startsWith line (js "data: ")); [|discriminate].
  destruct (JSON.parse (slice 6 line)) as [[]|]; congruence.
Qed.

(** A turn of the loop over lines, by the event the line carries. *)
Lemma on_line_event (k : nat) (line : jsstring) (c : consumer) :
  on_line k line c
  = match event_of_line line with
    | Some data => on_fields k data c
    | None => (Continue, c)
    end.
Proof.
  unfold Chat.on_line, event_of_line.
  destruct (startsWith line (js "data: ")); [|reflexivity].
  destruct (JSON.parse (slice 6 line)) as [[]|]; reflexivity.
Qed.

(** C8: when the input is empty once trimmed, [sendMessage] returns at
    once: the page is the same, with no message added, the input as it was
    and nothing done that the log would show, a request least of all. *)
Theorem sendMessage_blank_input (net : fetch_result) (w : page) :
  trim (userInput w) = [] -> sendMessage net w = w.
Proof.
  intros H. unfold Chat.sendMessage. now rewrite H.
Qed.

(** C4: a line that starts with the prefix and whose rest is not JSON
    changes nothing, neither the accumulated text nor the page, and the loop
    goes on with the lines after it and with the chunks after it; the stream
    of the two chunks, the malformed line and the event with the fragment
    [hi], ends showing [hi]. *)
Theorem malformed_line_skipped (k : nat) (line : jsstring)
    (rest : list jsstring) (reads : list read_result) (c : consumer) :
  startsWith line (js "data: ") = true ->
  JSON.parse (slice 6 line) = None ->
  on_line k line c = (Continue, c)
  /\ for_lines k (line :: rest) c = for_lines k rest c
  /\ (split_lines line = [line] ->
      read_loop k (Chunk line :: reads) c
      = read_loop k reads (on_dom (emit Read) c))
  /\ displayed 1
       (sendMessage
          (Response [Chunk (jq "data: {bad");
                     Chunk (jq "data: {'content':'hi'}")])
          (fresh_page (js "hello")))
     = Some (Formatted (js "hi")).
Proof.
  intros Hp Hj.
  assert (Hl : forall c', on_line k line c' = (Continue, c')).
  { intros c'. unfold Chat.on_line. now rewrite Hp, Hj. }
  split; [apply Hl|].
  split; [simpl; now rewrite Hl|].
  split; [|vm_compute; reflexivity].
  intros Hs. simpl. rewrite Hs. simpl. now rewrite Hl.
Qed.

(** *** Streams of whole lines *)

Lemma for_lines_cons (k : nat) (line : jsstring) (rest : list jsstring)
    (c : consumer) :
  for_lines k (line :: rest) c
  = match event_of_line line with
    | Some data =>
        match on_fields k data c with
        | (Break, c') => c'
        | (Continue, c') => for_lines k rest c'
        end
    | None => for_lines k rest c
    end.
Proof.
  cbn [Chat.for_lines]. rewrite on_line_event.
  now destruct (event_of_line line).
Qed.

Lemma read_loop_chunk (k : nat) (text : jsstring) (reads : list read_result)
    (c : consumer) :
  read_loop k (Chunk text :: reads) c
  = read_loop k reads (for_lines k (split_lines text) (on_dom (emit Read) c)).
Proof. reflexivity. Qed.

Lemma fragments_app (c b : jsstring) :
  whole_lines c = true -> fragments (c ++ b) = fragments c ++ fragments b.
Proof.
  intros H. destruct (split_lines_whole c H) as [ls [Hc Hcb]].
  unfold Chat.fragments, Chat.fragments_of_lines.
  rewrite Hcb, Hc, !flat_map_app. cbn [flat_map].
  rewrite event_of_empty_line. now rewrite !app_nil_r.
Qed.

Lemma fragments_empty : fragments [] = [].
Proof. reflexivity. Qed.

(** An event without an error flag appends its fragment, if it has one, and
    leaves the answer showing the accumulated text. *)
Lemma on_fields_no_error (k : nat) (data : JValue) (c : consumer) :
  has_error data = false ->
  shows_text k c ->
  exists c',
    on_fields k data c = (Continue, c')
    /\ fullText c'
       = fullText c ++ match content_of data with Some t => t | None => [] end
    /\ shows_text k c'.
Proof.
  unfold has_error, shows_text, Chat.on_fields, Chat.content_of.
  intros He Hs. rewrite He.
  destruct (field (js "content") data) as [v|];
    [destruct (ToBoolean (Some v));
       [destruct (ToString Number_toString v) as [t|]|]|];
    destruct (ToBoolean (field (js "done") data));
    eexists; (split; [reflexivity|]); cbn [fullText dom on_dom];
    rewrite ?app_nil_r; (split; [reflexivity|]);
    rewrite ?displayed_emit, ?displayed_set_id, ?displayed_emit;
    try assumption;
    apply (displayed_set_innerHTML k _ _ _ Hs).
Qed.

Lemma for_lines_error_free (k : nat) (lines : list jsstring) :
  forall c,
    error_free_lines lines = true ->
    shows_text k c ->
    fullText (for_lines k lines c)
    = fullText c ++ List.concat (fragments_of_lines lines)
    /\ shows_text k (for_lines k lines c).
Proof.
  induction lines as [|line rest IH]; intros c He Hs.
  - simpl. now rewrite app_nil_r.
  - rewrite for_lines_cons.
    unfold error_free_lines in He. cbn [forallb] in He.
    apply andb_true_iff in He. destruct He as [Hl Hr].
    unfold Chat.fragments_of_lines. cbn [flat_map].
    fold (fragments_of_lines rest).
    destruct (event_of_line line) as [data|].
    + apply negb_true_iff in Hl.
      destruct (on_fields_no_error k data c Hl Hs) as [c' [E [Ht Hs']]].
      rewrite E. destruct (IH c' Hr Hs') as [IHt IHs].
      split; [|exact IHs].
      rewrite IHt, Ht, List.concat_app, app_assoc.
      now destruct (content_of data); cbn [List.concat]; rewrite ?app_nil_r.
    + apply (IH c Hr Hs).
Qed.

Lemma aligned_cons (c : jsstring) (rest : list jsstring) :
  aligned (c :: rest) = true ->
  error_free (List.concat (c :: rest)) = true ->
  aligned rest = true
  /\ error_free c = true
  /\ error_free (List.concat rest) = true
  /\ fragments (List.concat (c :: rest))
     = fragments c ++ fragments (List.concat rest).
Proof.
  cbn [aligned List.concat]. destruct rest as [|c2 rest].
  - cbn [List.concat]. rewrite app_nil_r, fragments_empty, app_nil_r.
    intros _ He. repeat split; assumption.
  - intros Ha He. apply andb_true_iff in Ha. destruct Ha as [Hw Ha].
    rewrite (error_free_app _ _ Hw) in He.
    apply andb_true_iff in He. destruct He as [He1 He2].
    repeat split; try assumption. now apply fragments_app.
Qed.

Lemma read_loop_aligned (k : nat) (chunks : list jsstring) :
  forall c,
    aligned chunks = true ->
    error_free (List.concat chunks) = true ->
    shows_text k c ->
    exists c',
      read_loop k (map Chunk chunks ++ [Done]) c = Completed c'
      /\ fullText c'
         = fullText c ++ List.concat (fragments (List.concat chunks))
      /\ shows_text k c'.
Proof.
  induction chunks as [|text rest IH]; intros c Ha He Hs.
  - eexists. split; [reflexivity|]. split.
    + cbn [List.concat]. rewrite fragments_empty. cbn. now rewrite app_nil_r.
    + exact Hs.
  - destruct (aligned_cons text rest Ha He) as [Ha' [He1 [He2 Hf]]].
    cbn [map app]. rewrite read_loop_chunk.
    destruct (for_lines_error_free k (split_lines text)
                (on_dom (emit Read) c) He1 Hs) as [Ht Hs1].
    destruct (IH _ Ha' He2 Hs1) as [c' [E [Ht' Hs']]].
    exists c'. split; [exact E|]. split; [|exact Hs'].
    rewrite Ht', Ht, Hf, List.concat_app, app_assoc. reflexivity.
Qed.

(** C1, as the code has it: when no line is cut by a chunk boundary (every
    chunk but the last is empty or ends in a line feed) and no event carries
    an error flag, the answer ends showing the content fragments of the
    whole text, concatenated in the order of arrival.  The fragment of an
    event is the text its truthy [content] converts to; an event whose
    [content] does not convert has none, it is skipped. *)
Theorem sendMessage_whole_lines (chunks : list jsstring) (w : page) :
  nonempty (trim (userInput w)) = true ->
  aligned chunks = true ->
  error_free (List.concat chunks) = true ->
  displayed (S (List.length (chatMessages w)))
    (sendMessage (Response (map Chunk chunks ++ [Done])) w)
  = Some (Formatted (List.concat (fragments (List.concat chunks)))).
Proof.
  intros Hn Ha He. unfold Chat.sendMessage. rewrite Hn.
  destruct (prologue_placeholder (trim (userInput w)) w) as [Hk [Hd _]].
  cbn zeta in Hk, Hd. cbn zeta. rewrite Hk.
  set (c0 := {| fullText := [];
                dom := emit (Request (trim (userInput w)))
                         (prologue (trim (userInput w)) w) |}).
  assert (Hs : shows_text (S (List.length (chatMessages w))) c0)
    by exact Hd.
  destruct (read_loop_aligned _ chunks c0 Ha He Hs) as [c' [E [Ht Hs']]].
  rewrite E. unfold shows_text in Hs'. now rewrite Hs', Ht.
Qed.

(** *** The error flag *)

(** An event with an error flag ends the lines of its chunk: the error
    message is written and the lines after it are not looked at. *)
Lemma error_event_ends_chunk (k : nat) (line : jsstring) (data : JValue)
    (rest : list jsstring) (c : consumer) :
  event_of_line line = Some data ->
  has_error data = true ->
  for_lines k (line :: rest) c
  = on_dom (fun w => emit (ShowError k)
                       (set_innerHTML k (Formatted error_message) w)) c.
Proof.
  intros He Herr. rewrite for_lines_cons, He.
  unfold Chat.on_fields. unfold has_error in Herr. now rewrite Herr.
Qed.

(** The stream of the two fragments [Hel] and [lo] and the completion: the
    answer shows [Hel], then [Hello]; the id is cleared once; no error is
    shown. *)
Example hello_stream :
  let w := sendMessage (Response (map Chunk hello_chunks))
             (fresh_page (js "hello")) in
  log w
  = [Scroll; Scroll; Request (js "hello");
     Read; ShowText 1 (js "Hel"); Scroll; Pause 20;
     Read; ShowText 1 (js "Hello"); Scroll; Pause 20; Unmark 1;
     Read]
  /\ displayed 1 w = Some (Formatted (js "Hello"))
  /\ marker 1 w = Some [].
Proof. vm_compute. repeat split. Qed.

(** C2: after an event with an error flag in one chunk, the fragment of an
    event in the next chunk is still appended and shown: the answer ends
    showing [late], written over the error message. *)
Theorem content_after_error_is_shown :
  let w := sendMessage
             (Response [Chunk (jq "data: {'error':true}" ++ [LF]);
                        Chunk (jq "data: {'content':'late'}" ++ [LF])])
             (fresh_page (js "hello")) in
  displayed 1 w = Some (Formatted (js "late"))
  /\ display_updates (log w)
     = [(1%nat, Formatted error_message); (1%nat, Formatted (js "late"))].
Proof. vm_compute. split; reflexivity. Qed.

(** *** The accumulated text *)

Lemma is_prefix_refl (a : jsstring) : is_prefix a a.
Proof. exists []. now rewrite app_nil_r. Qed.

Lemma is_prefix_trans (a b c : jsstring) :
  is_prefix a b -> is_prefix b c -> is_prefix a c.
Proof.
  intros [t ->] [u ->]. exists (t ++ u). now rewrite app_assoc.
Qed.

Lemma is_prefix_length (a b : jsstring) :
  is_prefix a b -> (List.length a <= List.length b)%nat.
Proof. intros [t ->]. rewrite length_app. lia. Qed.

Lemma grows_refl (c : consumer) : grows c c.
Proof. apply is_prefix_refl. Qed.

Lemma grows_trans (a b c : consumer) : grows a b -> grows b c -> grows a c.
Proof. apply is_prefix_trans. Qed.

Lemma StronglySorted_app (A : Type) (R : A -> A -> Prop) (l1 l2 : list A) :
  StronglySorted R l1 ->
  StronglySorted R l2 ->
  (forall x y, In x l1 -> In y l2 -> R x y) ->
  StronglySorted R (l1 ++ l2).
Proof.
  induction l1 as [|a l1 IH]; intros H1 H2 H12; [exact H2|].
  inversion H1 as [|? ? Hs Hf]; subst. cbn [app]. constructor.
  - apply IH; [exact Hs|exact H2|]. intros x y Hx Hy.
    apply H12; [now right|exact Hy].
  - apply Forall_app. split; [exact Hf|].
    apply Forall_forall. intros y Hy. apply H12; [now left|exact Hy].
Qed.

Lemma last_cons_default (A : Type) (x : A) (l : list A) (d d' : A) :
  last (x :: l) d = last (x :: l) d'.
Proof.
  revert x. induction l as [|y l IH]; intros x; [reflexivity|].
  cbn [last] in *. apply (IH y).
Qed.

Lemma last_app_nonempty (A : Type) (l1 l2 : list A) (d : A) :
  l2 <> [] -> last (l1 ++ l2) d = last l2 d.
Proof.
  intros Hne. induction l1 as [|x l1 IH]; [reflexivity|].
  cbn [app last]. rewrite <- IH.
  destruct (l1 ++ l2) eqn:E; [|reflexivity].
  apply app_eq_nil in E. now destruct E.
Qed.

Lemma StronglySorted_weaken (A : Type) (R S : A -> A -> Prop) (l : list A) :
  (forall x y, R x y -> S x y) ->
  StronglySorted R l -> StronglySorted S l.
Proof.
  intros HRS. induction 1 as [|a l Hs IH Hf]; constructor; [exact IH|].
  eapply Forall_impl; [|exact Hf]. intros y. apply HRS.
Qed.

(** What one event does to the accumulated text and to the texts shown:
    nothing when it carries an error flag, else its fragment is appended and
    the new text shown. *)
Lemma on_fields_appends (k : nat) (data : JValue) (c : consumer) :
  let added :=
    if has_error data then []
    else match content_of data with Some t => [t] | None => [] end in
  fst (on_fields k data c) = (if has_error data then Break else Continue)
  /\ fullText (snd (on_fields k data c)) = fullText c ++ List.concat added
  /\ text_updates (log (dom (snd (on_fields k data c))))
     = text_updates (log (dom c)) ++ running (fullText c) added.
Proof.
  unfold has_error, Chat.on_fields, Chat.content_of.
  destruct (ToBoolean (field (js "error") data)).
  - cbn. rewrite !app_nil_r. repeat split.
    induction (log (dom c)) as [|e l IH]; [reflexivity|].
    destruct e; cbn; now rewrite ?IH.
  - destruct (field (js "content") data) as [v|];
      [destruct (ToBoolean (Some v));
       [destruct (ToString Number_toString v) as [t|]|]|];
      destruct (ToBoolean (field (js "done") data));
      cbn; rewrite ?app_nil_r; repeat split;
      induction (log (dom c)) as [|e l IH]; try reflexivity;
      destruct e; cbn; now rewrite ?IH.
Qed.

Lemma running_app (text : jsstring) (a b : list jsstring) :
  running text (a ++ b) = running text a ++ running (text ++ List.concat a) b.
Proof.
  revert text. induction a as [|f a IH]; intros text; cbn.
  - now rewrite app_nil_r.
  - now rewrite IH, app_assoc.
Qed.

Lemma for_lines_appends (k : nat) (lines : list jsstring) :
  forall c,
    fullText (for_lines k lines c)
    = fullText c ++ List.concat (taken_of_lines lines)
    /\ text_updates (log (dom (for_lines k lines c)))
       = text_updates (log (dom c))
         ++ running (fullText c) (taken_of_lines lines).
Proof.
  induction lines as [|line rest IH]; intros c.
  - cbn. now rewrite !app_nil_r.
  - rewrite for_lines_cons. cbn [Chat.taken_of_lines].
    destruct (event_of_line line) as [data|]; [|apply IH].
    destruct (on_fields_appends k data c) as [Hc [Ht Hu]].
    destruct (on_fields k data c) as [ctl c']. cbn [fst snd] in Hc, Ht, Hu.
    destruct (has_error data); subst ctl.
    + split; assumption.
    + destruct (IH c') as [IHt IHu]. rewrite IHt, IHu, Ht, Hu.
      destruct (content_of data) as [t|]; cbn [List.concat running app];
        rewrite ?app_nil_r, <- ?app_assoc; split; reflexivity.
Qed.

Lemma read_loop_appends (k : nat) (reads : list read_result) :
  forall c,
    fullText (state_of (read_loop k reads c))
    = fullText c ++ List.concat (taken reads)
    /\ text_updates (log (dom (state_of (read_loop k reads c))))
       = text_updates (log (dom c)) ++ running (fullText c) (taken reads).
Proof.
  assert (Hread : forall c,
             text_updates (log (dom (on_dom (emit Read) c)))
             = text_updates (log (dom c))).
  { intros c. cbn. induction (log (dom c)) as [|e l IH]; [reflexivity|].
    destruct e; cbn; now rewrite ?IH. }
  induction reads as [|r reads IH]; intros c.
  - cbn [Chat.read_loop state_of Chat.taken List.concat running].
    rewrite Hread, !app_nil_r. split; reflexivity.
  - destruct r.
    + rewrite read_loop_chunk. cbn [Chat.taken].
      destruct (IH (for_lines k (split_lines text) (on_dom (emit Read) c)))
        as [IHt IHu].
      destruct (for_lines_appends k (split_lines text) (on_dom (emit Read) c))
        as [Ht Hu].
      rewrite IHt, IHu, Ht, Hu, Hread, List.concat_app, running_app.
      cbn [fullText on_dom]. rewrite <- !app_assoc. split; reflexivity.
    + cbn [Chat.read_loop state_of Chat.taken List.concat running].
      rewrite Hread, !app_nil_r. split; reflexivity.
    + cbn [Chat.read_loop state_of Chat.taken List.concat running].
      rewrite Hread, !app_nil_r. split; reflexivity.
Qed.

Lemma on_line_grows (k : nat) (line : jsstring) (c : consumer) :
  grows c (snd (on_line k line c)).
Proof.
  rewrite on_line_event. destruct (event_of_line line) as [data|].
  - destruct (on_fields_appends k data c) as [_ [Ht _]].
    unfold grows. rewrite Ht. now eexists.
  - apply grows_refl.
Qed.

(** The states after the lines of a chunk: each extends the state before
    the chunk and those before it, and the state the chunk ends in extends
    them all. *)
Lemma states_of_lines_sorted (k : nat) (lines : list jsstring) :
  forall c,
    StronglySorted grows (c :: states_of_lines k lines c)
    /\ Forall (fun x => grows x (for_lines k lines c))
         (c :: states_of_lines k lines c)
    /\ last (states_of_lines k lines c) c = for_lines k lines c.
Proof.
  induction lines as [|line rest IH]; intros c.
  - cbn. repeat split; repeat constructor. apply grows_refl.
  - cbn [Chat.states_of_lines Chat.for_lines].
    pose proof (on_line_grows k line c) as Hg.
    destruct (on_line k line c) as [[|] c']; cbn [snd] in Hg.
    + destruct (IH c') as [Hs [Hf Hl]]. split; [|split].
      * constructor; [exact Hs|].
        inversion Hs as [|? ? _ Hall]; subst.
        constructor; [exact Hg|].
        eapply Forall_impl; [|exact Hall].
        intros x. apply grows_trans, Hg.
      * constructor; [|exact Hf].
        inversion Hf; subst. eapply grows_trans; eassumption.
      * rewrite <- Hl.
        destruct (states_of_lines k rest c') as [|x l]; [reflexivity|].
        cbn [last]. apply last_cons_default.
    + split; [|split].
      * repeat constructor. exact Hg.
      * repeat constructor; [exact Hg|apply grows_refl].
      * reflexivity.
Qed.

Lemma states_sorted (k : nat) (reads : list read_result) :
  forall c,
    StronglySorted grows (c :: states k reads c)
    /\ last (states k reads c) c = state_of (read_loop k reads c).
Proof.
  assert (Hend : forall c,
             StronglySorted grows [c; on_dom (emit Read) c]).
  { intros c. constructor; [repeat constructor|].
    constructor; [|constructor]. apply is_prefix_refl. }
  induction reads as [|r reads IH]; intros c.
  - split; [apply Hend|reflexivity].
  - destruct r; [|split; [apply Hend|reflexivity]..].
    cbn [Chat.states]. rewrite read_loop_chunk.
    set (c1 := on_dom (emit Read) c).
    destruct (states_of_lines_sorted k (split_lines text) c1)
      as [Hs [Hf Hl]].
    destruct (IH (for_lines k (split_lines text) c1)) as [IHs IHl].
    inversion IHs as [|? ? IHs' IHf]; subst.
    assert (Hall : StronglySorted grows
                     ((c1 :: states_of_lines k (split_lines text) c1)
                      ++ states k reads (for_lines k (split_lines text) c1))).
    { apply StronglySorted_app; [exact Hs|exact IHs'|].
      intros x y Hx Hy. eapply grows_trans.
      - eapply Forall_forall in Hf; [exact Hf|exact Hx].
      - eapply Forall_forall in IHf; [exact IHf|exact Hy]. }
    split.
    + constructor; [exact Hall|].
      apply StronglySorted_inv in Hall. destruct Hall as [_ Hall].
      cbn [app]. constructor; [apply is_prefix_refl|].
      eapply Forall_impl; [|exact Hall]. intros x Hx. exact Hx.
    + rewrite <- IHl.
      change (c1 :: states_of_lines k (split_lines text) c1
                 ++ states k reads (for_lines k (split_lines text) c1))
        with ((c1 :: states_of_lines k (split_lines text) c1)
                ++ states k reads (for_lines k (split_lines text) c1)).
      assert (Hne : states k reads (for_lines k (split_lines text) c1) <> []).
      { destruct reads as [|[] ?]; discriminate. }
      revert Hne.
      generalize (states k reads (for_lines k (split_lines text) c1)).
      intros l Hne. rewrite (last_app_nonempty _ _ l c Hne).
      destruct l; [contradiction|]. apply last_cons_default.
Qed.

(** *** What the page shows during a run *)

Lemma display_updates_app (l1 l2 : list effect) :
  display_updates (l1 ++ l2) = display_updates l1 ++ display_updates l2.
Proof.
  induction l1 as [|e l1 IH]; [reflexivity|].
  destruct e; cbn; now rewrite ?IH.
Qed.

Lemma last_written_app (k : nat) (h : Html) (l1 l2 : list effect) :
  last_written k h (l1 ++ l2) = last_written k (last_written k h l1) l2.
Proof.
  unfold last_written. now rewrite display_updates_app, fold_left_app.
Qed.

Lemma last_written_quiet (k : nat) (x : Html) (l : list effect) :
  display_updates l = [] -> last_written k x l = x.
Proof. intros H. unfold last_written. now rewrite H. Qed.

Lemma last_written_one (k : nat) (x y : Html) (l : list effect) :
  display_updates l = [(k, y)] -> last_written k x l = y.
Proof.
  intros H. unfold last_written. rewrite H. cbn [fold_left fst snd].
  now rewrite Nat.eqb_refl.
Qed.

Lemma tracks_start (k : nat) (h : Html) (w : page) :
  displayed k w = Some h -> tracks k h (log w) w.
Proof. intros H. exists []. now rewrite app_nil_r. Qed.

Lemma tracks_emit (k : nat) (h : Html) (l0 : list effect) (e : effect)
    (w : page) :
  display_updates [e] = [] -> tracks k h l0 w -> tracks k h l0 (emit e w).
Proof.
  intros He [l [Hl Hd]]. exists (l ++ [e]). split.
  - cbn [log emit]. now rewrite Hl, app_assoc.
  - rewrite displayed_emit, last_written_app, Hd.
    now rewrite (last_written_quiet k _ [e] He).
Qed.

Lemma tracks_set_id (k : nat) (h : Html) (l0 : list effect) (i : jsstring)
    (w : page) :
  tracks k h l0 w -> tracks k h l0 (set_id k i w).
Proof.
  intros [l [Hl Hd]]. exists l. split; [exact Hl|].
  now rewrite displayed_set_id.
Qed.

Lemma tracks_write (k : nat) (h x : Html) (l0 : list effect) (e : effect)
    (w : page) :
  display_updates [e] = [(k, x)] ->
  tracks k h l0 w -> tracks k h l0 (emit e (set_innerHTML k x w)).
Proof.
  intros He [l [Hl Hd]]. exists (l ++ [e]). split.
  - cbn [log emit set_innerHTML]. now rewrite Hl, app_assoc.
  - rewrite displayed_emit, last_written_app.
    rewrite (displayed_set_innerHTML k x _ w Hd).
    now rewrite (last_written_one k _ x [e] He).
Qed.

Lemma on_fields_tracks (k : nat) (h : Html) (l0 : list effect)
    (data : JValue) (c : consumer) :
  tracks k h l0 (dom c) -> tracks k h l0 (dom (snd (on_fields k data c))).
Proof.
  intros H. unfold Chat.on_fields.
  destruct (ToBoolean (field (js "error") data)).
  - cbn [snd dom on_dom]. now apply tracks_write.
  - destruct (field (js "content") data) as [v|];
      [destruct (ToBoolean (Some v));
         [destruct (ToString Number_toString v) as [t|]|]|];
      destruct (ToBoolean (field (js "done") data));
      cbn [snd dom on_dom];
      repeat first
        [ assumption
        | apply tracks_emit; [reflexivity|]
        | apply tracks_set_id
        | apply tracks_write; [reflexivity|] ].
Qed.

Lemma states_of_lines_track (k : nat) (h : Html) (l0 : list effect)
    (lines : list jsstring) :
  forall c,
    tracks k h l0 (dom c) ->
    Forall (fun s => tracks k h l0 (dom s)) (states_of_lines k lines c)
    /\ tracks k h l0 (dom (for_lines k lines c)).
Proof.
  induction lines as [|line rest IH]; intros c H.
  - split; [constructor|exact H].
  - cbn [Chat.states_of_lines Chat.for_lines].
    assert (Hl : tracks k h l0 (dom (snd (on_line k line c)))).
    { rewrite on_line_event. destruct (event_of_line line) as [data|].
      - now apply on_fields_tracks.
      - exact H. }
    destruct (on_line k line c) as [[|] c']; cbn [snd] in Hl.
    + destruct (IH c' Hl) as [Hs Hf]. split; [|exact Hf].
      constructor; assumption.
    + split; [|exact Hl]. constructor; [exact Hl|constructor].
Qed.

Lemma states_track (k : nat) (h : Html) (l0 : list effect)
    (reads : list read_result) :
  forall c,
    tracks k h l0 (dom c) ->
    Forall (fun s => tracks k h l0 (dom s)) (states k reads c).
Proof.
  induction reads as [|r reads IH]; intros c H.
  - repeat constructor. cbn [dom on_dom]. now apply tracks_emit.
  - assert (H1 : tracks k h l0 (dom (on_dom (emit Read) c)))
      by (cbn [dom on_dom]; now apply tracks_emit).
    destruct r; [|repeat constructor; exact H1..].
    cbn [Chat.states].
    destruct (states_of_lines_track k h l0 (split_lines text) _ H1)
      as [Hs Hf].
    constructor; [exact H1|].
    apply Forall_app. split; [exact Hs|]. now apply IH.
Qed.

Lemma tracks_since (k : nat) (h : Html) (c s : consumer) :
  tracks k h (log (dom c)) (dom s) ->
  displayed k (dom s) = Some (last_written k h (since c s)).
Proof.
  intros [l [Hl Hd]]. unfold since. rewrite Hl, skipn_app, Nat.sub_diag.
  rewrite skipn_all. cbn [app skipn]. exact Hd.
Qed.

(** C3: in a run of the loop the accumulated text only grows: of the
    states the loop goes through, each has for accumulated text a prefix of
    that of every later one, so the lengths never decrease; the last of them
    is the state the loop ends in; the texts shown are the running
    concatenations of the fragments the loop takes, in the order of arrival;
    and in each of the states the answer holds what the run last wrote to
    it, so the page goes through these texts in that order. *)
Theorem accumulated_text_append_only (k : nat) (reads : list read_result)
    (c : consumer) :
  StronglySorted grows (c :: states k reads c)
  /\ StronglySorted
       (fun a b => (List.length (fullText a) <= List.length (fullText b))%nat)
       (c :: states k reads c)
  /\ last (states k reads c) c = state_of (read_loop k reads c)
  /\ fullText (state_of (read_loop k reads c))
     = fullText c ++ List.concat (taken reads)
  /\ text_updates (log (dom (state_of (read_loop k reads c))))
     = text_updates (log (dom c)) ++ running (fullText c) (taken reads)
  /\ forall h,
       displayed k (dom c) = Some h ->
       Forall (fun s =>
                 displayed k (dom s) = Some (last_written k h (since c s)))
         (states k reads c).
Proof.
  destruct (states_sorted k reads c) as [Hs Hl].
  destruct (read_loop_appends k reads c) as [Ht Hu].
  split; [exact Hs|]. split.
  { eapply StronglySorted_weaken; [|exact Hs].
    intros x y. apply is_prefix_length. }
  split; [exact Hl|]. split; [exact Ht|]. split; [exact Hu|].
  intros h Hd.
  pose proof (states_track k h (log (dom c)) reads c (tracks_start k h _ Hd))
    as Hall.
  eapply Forall_impl; [|exact Hall].
  intros s. apply tracks_since.
Qed.

(** *** The end of the stream *)

Lemma read_loop_app (k : nat) (chunks : list jsstring)
    (tail : list read_result) :
  forall c,
    read_loop k (map Chunk chunks ++ tail) c
    = read_loop k tail (after_chunks k chunks c).
Proof.
  induction chunks as [|text rest IH]; intros c; [reflexivity|].
  cbn [map app Chat.after_chunks]. rewrite read_loop_chunk. apply IH.
Qed.

Lemma reads_made_app (l1 l2 : list effect) :
  reads_made (l1 ++ l2) = (reads_made l1 + reads_made l2)%nat.
Proof.
  induction l1 as [|e l1 IH]; [reflexivity|].
  destruct e; cbn; now rewrite ?IH.
Qed.

(** The first lines of [sendMessage] on an input that is not blank. *)
Lemma sendMessage_response (reads : list read_result) (w : page) :
  nonempty (trim (userInput w)) = true ->
  sendMessage (Response reads) w
  = match read_loop (S (List.length (chatMessages w))) reads
            {| fullText := [];
               dom := emit (Request (trim (userInput w)))
                        (prologue (trim (userInput w)) w) |} with
    | Completed c => dom c
    | Thrown c => on_failure (dom c)
    end.
Proof.
  intros Hn. unfold Chat.sendMessage. rewrite Hn.
  destruct (prologue_placeholder (trim (userInput w)) w) as [Hk _].
  cbn zeta in Hk. cbn zeta. now rewrite Hk.
Qed.

(** C7: when the stream reports its end after the given chunks, the loop
    stops in the state it was in once the last chunk was processed: the
    final read is all that is added, every element shows what it showed,
    and the log has no further write of [innerHTML]. *)
Theorem end_of_stream_keeps_display (chunks : list jsstring)
    (rest : list read_result) (w : page) :
  nonempty (trim (userInput w)) = true ->
  let k := S (List.length (chatMessages w)) in
  let c := after_chunks k chunks
             {| fullText := [];
                dom := emit (Request (trim (userInput w)))
                         (prologue (trim (userInput w)) w) |} in
  let w' := sendMessage (Response (map Chunk chunks ++ Done :: rest)) w in
  (forall tail,
      sendMessage (Response (map Chunk chunks ++ tail)) w
      = match read_loop k tail c with
        | Completed c' => dom c'
        | Thrown c' => on_failure (dom c')
        end)
  /\ w' = emit Read (dom c)
  /\ sendMessage (Response (map Chunk chunks)) w = w'
  /\ chatMessages w' = chatMessages (dom c)
  /\ (forall j, displayed j w' = displayed j (dom c))
  /\ display_updates (log w') = display_updates (log (dom c)).
Proof.
  intros Hn k c w'.
  assert (Hw : w' = emit Read (dom c)).
  { unfold w'. now rewrite (sendMessage_response _ _ Hn), read_loop_app. }
  split; [|split; [exact Hw|split; [|rewrite Hw; repeat split]]].
  - intros tail. now rewrite (sendMessage_response _ _ Hn), read_loop_app.
  - rewrite Hw, (sendMessage_response _ _ Hn).
    rewrite <- (app_nil_r (map Chunk chunks)), read_loop_app. reflexivity.
  - cbn [log emit]. rewrite display_updates_app. cbn. apply app_nil_r.
Qed.

(** *** The completion flag *)

Lemma for_lines_reads_made (k : nat) (lines : list jsstring) :
  forall c,
    reads_made (log (dom (for_lines k lines c))) = reads_made (log (dom c)).
Proof.
  induction lines as [|line rest IH]; intros c; [reflexivity|].
  rewrite for_lines_cons.
  destruct (event_of_line line) as [data|]; [|apply IH].
  assert (H : reads_made (log (dom (snd (on_fields k data c))))
              = reads_made (log (dom c))).
  { unfold Chat.on_fields.
    destruct (ToBoolean (field (js "error") data)).
    - cbn. rewrite reads_made_app. cbn. lia.
    - destruct (field (js "content") data) as [v|];
        [destruct (ToBoolean (Some v));
       [destruct (ToString Number_toString v) as [t|]|]|];
        destruct (ToBoolean (field (js "done") data));
        cbn; rewrite ?reads_made_app; cbn; rewrite ?reads_made_app; cbn;
        rewrite ?reads_made_app; cbn; rewrite ?reads_made_app; cbn; lia. }
  destruct (on_fields k data c) as [[|] c']; cbn [snd] in H.
  - now rewrite IH.
  - exact H.
Qed.

Lemma read_loop_reads_made (k : nat) (chunks : list jsstring)
    (rest : list read_result) :
  forall c,
    reads_made
      (log (dom (state_of (read_loop k (map Chunk chunks ++ Done :: rest) c))))
    = (reads_made (log (dom c)) + List.length chunks + 1)%nat.
Proof.
  induction chunks as [|text more IH]; intros c.
  - cbn. rewrite reads_made_app. cbn. lia.
  - cbn [map app List.length]. rewrite read_loop_chunk, IH.
    rewrite for_lines_reads_made. cbn. rewrite reads_made_app. cbn. lia.
Qed.


(** *** Failures *)

Lemma write_at_spec (i text : jsstring) (t : place) (w : page) :
  List.length (chatMessages (write_at parseFragment i text t w))
  = List.length (chatMessages w)
  /\ (forall j,
        nth_error (chatMessages (write_at parseFragment i text t w)) j
        = if Nat.eqb j (message_of t)
          then option_map
                 (write_to parseFragment i text (part_of t) (spot_of t))
                 (nth_error (chatMessages w) j)
          else nth_error (chatMessages w) j)
  /\ userInput (write_at parseFragment i text t w) = userInput w
  /\ log (write_at parseFragment i text t w) = log w.
Proof.
  unfold write_at, write_to. cbn [chatMessages userInput log].
  destruct (part_of t).
  - split; [apply length_update_avatar|].
    split; [|split; reflexivity].
    intros j. apply nth_error_update_avatar.
  - split; [apply length_update_body|].
    split; [|split; reflexivity].
    intros j. apply nth_error_update_body.
Qed.

Lemma getElementById_streaming (p : page) :
  getElementById streaming_message p
  = find_id parseFragment streaming_message (chatMessages p).
Proof. reflexivity. Qed.

(** What the [catch] does to a page. *)
Lemma on_failure_spec (p : page) :
  match getElementById streaming_message p with
  | Some t =>
      (exists m,
          nth_error (chatMessages p) (message_of t) = Some m
          /\ find_in_message parseFragment streaming_message m
             = Some (part_of t, spot_of t)
          /\ nth_error (chatMessages (on_failure p)) (message_of t)
             = Some (write_to parseFragment streaming_message
                       connection_error (part_of t) (spot_of t) m))
      /\ (forall j m,
            (j < message_of t)%nat ->
            nth_error (chatMessages p) j = Some m ->
            find_in_message parseFragment streaming_message m = None)
      /\ log (on_failure p) = log p ++ [ShowConnectionError (message_of t)]
      /\ (forall j, j <> message_of t ->
            nth_error (chatMessages (on_failure p)) j
            = nth_error (chatMessages p) j)
      /\ (forall j, marker j (on_failure p) = marker j p)
      /\ userInput (on_failure p) = userInput p
      /\ List.length (chatMessages (on_failure p))
         = List.length (chatMessages p)
  | None =>
      on_failure p = p
      /\ forall j m,
           nth_error (chatMessages p) j = Some m ->
           find_in_message parseFragment streaming_message m = None
  end.
Proof.
  unfold Chat.on_failure. rewrite getElementById_streaming.
  pose proof (find_id_first parseFragment streaming_message (chatMessages p))
    as H.
  destruct (find_id parseFragment streaming_message (chatMessages p))
    as [t|]; [|split; [reflexivity|exact H]].
  destruct H as [[m [Hn Hi]] Hfirst].
  destruct (write_at_spec streaming_message connection_error t p)
    as [Hlen [Hnth [Hu Hl]]].
  split.
  { exists m. split; [exact Hn|]. split; [exact Hi|].
    cbn [chatMessages emit]. rewrite Hnth, Nat.eqb_refl, Hn. reflexivity. }
  split; [exact Hfirst|].
  split; [cbn [log emit]; now rewrite Hl|].
  split.
  { intros j Hj. cbn [chatMessages emit]. rewrite Hnth.
    destruct (Nat.eqb_spec j (message_of t)); [contradiction|reflexivity]. }
  split.
  { intros j. unfold marker. cbn [chatMessages emit]. rewrite Hnth.
    destruct (Nat.eqb j (message_of t)); [|reflexivity].
    destruct (nth_error (chatMessages p) j) as [m'|]; [|reflexivity].
    cbn [option_map]. unfold write_to.
    now destruct (part_of t). }
  split; [exact Hu|exact Hlen].
Qed.


(** *** Falsy content *)

(** C9, as the code has it: an event whose [content] is the empty string,
    or any other falsy value, and that carries no error flag, appends
    nothing and writes nothing: at most it clears the id, when it carries a
    completion flag.  With or without an error flag it is handled as the
    same event without a [content] member is. *)
Theorem falsy_content_is_ignored (k : nat) (data v : JValue) (c : consumer) :
  field (js "content") data = Some v ->
  ToBoolean (Some v) = false ->
  on_event k data c = on_event k (delete (js "content") data) c
  /\ fullText (snd (on_event k data c)) = fullText c
  /\ (has_error data = false ->
      on_event k data c
      = (Continue,
         if has_done data
         then on_dom (fun w => emit (Unmark k) (set_id k [] w)) c
         else c)
      /\ display_updates (log (dom (snd (on_event k data c))))
         = display_updates (log (dom c))
      /\ forall j, displayed j (dom (snd (on_event k data c)))
                   = displayed j (dom c)).
Proof.
  intros Hf Hv. destruct data as [| | | | |ms]; try discriminate.
  cbn [field] in Hf.
  cbn [delete Chat.on_event]. unfold Chat.on_fields, has_error, has_done.
  cbn [field]. rewrite Hf, Hv, lookup_deleted.
  rewrite !lookup_delete by reflexivity.
  split; [reflexivity|]. split.
  - destruct (ToBoolean (lookup (js "error") ms)); [reflexivity|].
    now destruct (ToBoolean (lookup (js "done") ms)).
  - intros He. rewrite He. split; [reflexivity|].
    destruct (ToBoolean (lookup (js "done") ms)); cbn [snd dom on_dom].
    + split.
      * cbn [log emit set_id]. rewrite display_updates_app. cbn.
        apply app_nil_r.
      * intros j. now rewrite displayed_emit, displayed_set_id.
    + split; reflexivity.
Qed.

End StreamFacts.

(** ** The search of the admin page *)

Section AdminFacts.

Variable toLowerCase : jsstring -> jsstring.

Lemma filterKnowledge_listing (a : admin) (l : list entry) :
  knowledgeList
    (updateFilteredCount (List.length l)
       (updateSearchResults (searchTerm_of toLowerCase a)
          (selectedCategory_of a) (List.length l) (displayKnowledge l a)))
  = knowledgeList (displayKnowledge l a).
Proof.
  unfold updateFilteredCount, updateSearchResults, displayKnowledge.
  cbn [searchResults filteredCount].
  destruct (searchResults a); cbn [filteredCount];
    destruct (filteredCount a); reflexivity.
Qed.

Lemma shown_displayKnowledge (a : admin) (l : list entry) :
  shown (knowledgeList (displayKnowledge l a)) = l.
Proof. now destruct l. Qed.

(** C10: the search shows exactly the entries of the loaded list that are
    of the selected category (any, when the selection is [all]) and have
    the lower-cased search term in their lower-cased question, answer,
    category or source, in the order of the list; with an empty search term
    and the selection [all] it shows the whole list. *)
Theorem filterKnowledge_shows_matching (a : admin) :
  shown (knowledgeList (filterKnowledge toLowerCase a))
  = filter (matching toLowerCase (searchTerm_of toLowerCase a)
              (selectedCategory_of a))
      (allKnowledge a)
  /\ (searchTerm_of toLowerCase a = [] ->
      selectedCategory_of a = all ->
      shown (knowledgeList (filterKnowledge toLowerCase a)) = allKnowledge a).
Proof.
  assert (H : shown (knowledgeList (filterKnowledge toLowerCase a))
              = filter (matching toLowerCase (searchTerm_of toLowerCase a)
                          (selectedCategory_of a))
                  (allKnowledge a)).
  { unfold filterKnowledge. cbn zeta.
    rewrite filterKnowledge_listing, shown_displayKnowledge.
    unfold matching.
    destruct (jsstring_eqb (selectedCategory_of a) all) eqn:Ec; cbn [negb orb];
      destruct (searchTerm_of toLowerCase a) as [|x t] eqn:Et; cbn [nonempty].
    - symmetry. apply filter_all. intros e. now rewrite includes_empty.
    - apply filter_ext. intros e. reflexivity.
    - apply filter_ext. intros e. rewrite includes_empty. cbn.
      now rewrite andb_true_r.
    - rewrite filter_filter. apply filter_ext. intros e. reflexivity. }
  split; [exact H|].
  intros Ht Hc. rewrite H, Ht, Hc. apply filter_all. intros e.
  unfold matching. now rewrite includes_empty.
Qed.

End AdminFacts.

(** A blank input, whatever the server would answer. *)
Lemma sendMessage_blank_input_witness :
  trim (js "   ") = []
  /\ forall nts frag,
       sendMessage nts frag (Response [Chunk (jq "data: {'content':'hi'}")])
         (fresh_page (js "   "))
       = fresh_page (js "   ").
Proof.
  split; [reflexivity|].
  intros nts frag. apply (sendMessage_blank_input nts frag). reflexivity.
Defined.

Lemma malformed_line_skipped_witness :
  startsWith (jq "data: {bad") (js "data: ") = true
  /\ JSON.parse (slice 6 (jq "data: {bad")) = None
  /\ forall nts c,
       on_line nts 1 (jq "data: {bad") c = (Continue, c).
Proof.
  split; [reflexivity|]. split; [reflexivity|].
  intros nts c.
  apply (malformed_line_skipped nts (fun _ _ => []) 1 (jq "data: {bad") []
           [] c);
    reflexivity.
Defined.

(** ** The claims on concrete streams *)

(** C1 at the stream of the two fragments [Hel] and [lo]. *)
Lemma sendMessage_whole_lines_witness :
  nonempty (trim (userInput (fresh_page (js "hello")))) = true
  /\ aligned hello_chunks = true
  /\ error_free (List.concat hello_chunks) = true
  /\ forall nts frag,
       displayed 1
         (sendMessage nts frag (Response (map Chunk hello_chunks ++ [Done]))
            (fresh_page (js "hello")))
       = Some (Formatted
                 (List.concat (fragments nts (List.concat hello_chunks)))).
Proof.
  split; [reflexivity|]. split; [reflexivity|].
  split; [vm_compute; reflexivity|].
  intros nts frag.
  apply (sendMessage_whole_lines nts frag hello_chunks
           (fresh_page (js "hello")));
    vm_compute; reflexivity.
Defined.

(** C1 fails when a line is cut: the text of the two chunks has the one
    fragment [Hello], but neither chunk holds a line that parses, and the
    answer ends showing nothing. *)
Lemma cut_line_is_lost :
  (forall nts, fragments nts (List.concat cut_chunks) = [js "Hello"])
  /\ (forall nts frag,
        displayed 1
          (sendMessage nts frag (Response (map Chunk cut_chunks ++ [Done]))
             (fresh_page (js "hello")))
        = Some (Formatted [])).
Proof. split; [intros nts|intros nts frag]; vm_compute; reflexivity. Qed.



(** A content that does not convert to text: an object with a member
    [toString], alone or in an array.  The event is skipped as a whole, the
    completion with it: nothing is shown and the id stays. *)
Example unconvertible_content :
  event_of_line (jq "data: {'content':{'toString':1},'done':true}")
  = Some (JObject [(js "content",
                    JObject [(js "toString",
                              JNumber {| negative := false; mantissa := 1;
                                         exponent := 0 |})]);
                   (js "done", JBool true)])
  /\ (forall nts frag,
        let w := sendMessage nts frag
                   (Response
                      [Chunk (jq "data: {'content':{'toString':1},'done':true}"
                              ++ [LF]);
                       Chunk (jq "data: {'content':['a',{'toString':1}]}"
                              ++ [LF])])
                   (fresh_page (js "hello")) in
        displayed 1 w = Some empty_html
        /\ marker 1 w = Some streaming_message
        /\ display_updates (log w) = []).
Proof. split; [|intros nts frag]; vm_compute; repeat split. Qed.



(** C7 at the stream of the two fragments, with reads after its end. *)
Lemma end_of_stream_keeps_display_witness :
  nonempty (trim (userInput (fresh_page (js "hello")))) = true
  /\ forall nts frag,
       sendMessage nts frag
         (Response (map Chunk hello_chunks
                    ++ Done :: [Chunk (jq "data: {'content':'!'}")]))
         (fresh_page (js "hello"))
       = emit Read (dom (after_chunks nts 1 hello_chunks
                           (first_state (js "hello")))).
Proof.
  split; [reflexivity|]. intros nts frag.
  apply (end_of_stream_keeps_display nts frag hello_chunks
           [Chunk (jq "data: {'content':'!'}")] (fresh_page (js "hello"))).
  reflexivity.
Defined.

(** C9 fails for an event with an empty [content] and an error flag: the
    error message is written. *)
Lemma empty_content_with_error_is_shown :
  event_of_line (jq "data: {'content':'','error':true}")
  = Some (JObject [(js "content", JString []); (js "error", JBool true)])
  /\ (forall nts frag,
        display_updates
          (log (sendMessage nts frag
                  (Response
                     [Chunk (jq "data: {'content':'','error':true}" ++ [LF])])
                  (fresh_page (js "hello"))))
        = [(1%nat, Formatted error_message)]).
Proof. split; [|intros nts frag]; vm_compute; reflexivity. Qed.

(** C9 at the event whose only member is an empty [content]. *)
Lemma falsy_content_is_ignored_witness :
  field (js "content") (JObject [(js "content", JString [])])
  = Some (JString [])
  /\ ToBoolean (Some (JString [])) = false
  /\ has_error (JObject [(js "content", JString [])]) = false
  /\ forall nts,
       on_event nts 1 (JObject [(js "content", JString [])])
         (first_state (js "hello"))
       = (Continue, first_state (js "hello")).
Proof.
  split; [reflexivity|]. split; [reflexivity|]. split; [reflexivity|].
  intros nts.
  apply (falsy_content_is_ignored nts 1 (JObject [(js "content", JString [])])
           (JString []) (first_state (js "hello")));
    reflexivity.
Defined.

(** C10 at two entries, an empty search box and the selection [all]. *)
Lemma filterKnowledge_shows_matching_witness :
  searchTerm_of ascii_lower sample_admin = []
  /\ selectedCategory_of sample_admin = all
  /\ shown (knowledgeList (filterKnowledge ascii_lower sample_admin))
     = sample_knowledge.
Proof.
  split; [reflexivity|]. split; [reflexivity|].
  apply (filterKnowledge_shows_matching ascii_lower sample_admin);
    reflexivity.
Defined.

(** * More of the chat page *)

(** ** The formatting of an answer *)

Lemma replace_all_skip (m : jsstring -> option (jsstring * nat))
    (k : nat) (s : jsstring) :
  replace_all m k s = replace_all m 0 (skipn k s).
Proof.
  revert k. induction s as [|c r IH]; intros [|k]; try reflexivity.
  cbn [replace_all skipn]. apply IH.
Qed.

Lemma replace_all_none (m : jsstring -> option (jsstring * nat))
    (c : code_unit) (r : jsstring) :
  m (c :: r) = None ->
  replace_all m 0 (c :: r) = c :: replace_all m 0 r.
Proof. intros H. cbn [replace_all]. now rewrite H. Qed.

Lemma replace_all_match (m : jsstring -> option (jsstring * nat))
    (c : code_unit) (r out : jsstring) (len : nat) :
  m (c :: r) = Some (out, len) ->
  replace_all m 0 (c :: r) = out ++ replace_all m 0 (skipn (len - 1) r).
Proof.
  intros H. cbn [replace_all]. rewrite H. now rewrite replace_all_skip.
Qed.

(** A pass copies a prefix none of whose characters can start a match. *)
Lemma replace_all_prefix (m : jsstring -> option (jsstring * nat))
    (quiet : code_unit -> bool) (a s : jsstring) :
  (forall c t, quiet c = true -> m (c :: t) = None) ->
  forallb quiet a = true ->
  replace_all m 0 (a ++ s) = a ++ replace_all m 0 s.
Proof.
  intros Hq. induction a as [|c a IH]; intros Ha; [reflexivity|].
  cbn [forallb] in Ha. apply andb_true_iff in Ha. destruct Ha as [Hc Ha].
  cbn [app]. rewrite replace_all_none by now apply Hq.
  now rewrite IH.
Qed.

Lemma replace_all_quiet (m : jsstring -> option (jsstring * nat))
    (quiet : code_unit -> bool) (s : jsstring) :
  (forall c t, quiet c = true -> m (c :: t) = None) ->
  forallb quiet s = true ->
  replace_all m 0 s = s.
Proof.
  intros Hq Hs. rewrite <- (app_nil_r s) at 1.
  rewrite (replace_all_prefix m quiet s [] Hq Hs). apply app_nil_r.
Qed.

Lemma bold_at_quiet (c : code_unit) (t : jsstring) :
  quiet_bold c = true -> bold_at (c :: t) = None.
Proof.
  unfold quiet_bold, bold_at. intros H. apply negb_true_iff in H.
  destruct t as [|b [|d r]]; try reflexivity. now rewrite H.
Qed.

Lemma link_at_quiet (c : code_unit) (t : jsstring) :
  quiet_link c = true -> link_at (c :: t) = None.
Proof.
  unfold quiet_link, link_at. intros H. apply negb_true_iff in H.
  now rewrite H.
Qed.

Lemma numbered_at_quiet (c : code_unit) (t : jsstring) :
  quiet_numbered c = true -> numbered_at (c :: t) = None.
Proof.
  unfold quiet_numbered, numbered_at. intros H. apply negb_true_iff in H.
  cbn [digit_run]. now rewrite H.
Qed.

Lemma newline_at_quiet (c : code_unit) (t : jsstring) :
  quiet_newline c = true -> newline_at (c :: t) = None.
Proof.
  unfold quiet_newline, newline_at. intros H. apply negb_true_iff in H.
  now rewrite H.
Qed.

Lemma plain_quiet (s : jsstring) :
  forallb plain s = true ->
  forallb quiet_bold s = true /\ forallb quiet_link s = true
  /\ forallb quiet_numbered s = true /\ forallb quiet_newline s = true.
Proof.
  induction s as [|c s IH]; intros H; [repeat split|].
  cbn [forallb] in *. apply andb_true_iff in H. destruct H as [Hc Hs].
  destruct (IH Hs) as [H1 [H2 [H3 H4]]].
  unfold plain in Hc. rewrite !andb_true_iff in Hc.
  destruct Hc as [[[Hb Hl] Hn] Hd].
  rewrite H1, H2, H3, H4.
  unfold quiet_bold, quiet_link, quiet_numbered, quiet_newline.
  now rewrite Hb, Hl, Hn, Hd.
Qed.

(** The four passes leave a text alone when each is quiet on it. *)
Lemma formatBotMessage_quiet (s : jsstring) :
  forallb quiet_bold s = true ->
  forallb quiet_link s = true ->
  forallb quiet_numbered s = true ->
  forallb quiet_newline s = true ->
  formatBotMessage s = s.
Proof.
  intros H1 H2 H3 H4. unfold formatBotMessage.
  rewrite (replace_all_quiet bold_at quiet_bold s bold_at_quiet H1).
  rewrite (replace_all_quiet link_at quiet_link s link_at_quiet H2).
  rewrite (replace_all_quiet numbered_at quiet_numbered s numbered_at_quiet H3).
  apply (replace_all_quiet newline_at quiet_newline s newline_at_quiet H4).
Qed.

(** Text without an asterisk, an opening bracket, a digit or a line feed
    is written to the page as it is: its markup, if it has some, is the
    server's to choose, and none of it is escaped. *)
Theorem formatBotMessage_plain (text : jsstring) :
  forallb plain text = true -> formatBotMessage text = text.
Proof.
  intros H. destruct (plain_quiet text H) as [H1 [H2 [H3 H4]]].
  now apply formatBotMessage_quiet.
Qed.

Lemma replace_newline_no_LF (k : nat) (s : jsstring) :
  forallb quiet_newline (replace_all newline_at k s) = true.
Proof.
  revert k. induction s as [|c r IH]; intros k; [reflexivity|].
  cbn [replace_all]. destruct k as [|k]; [|apply IH].
  unfold newline_at. destruct (c =? LF) eqn:E.
  - rewrite forallb_app. rewrite IH. reflexivity.
  - cbn [forallb]. unfold quiet_newline at 1. now rewrite E, IH.
Qed.


Ltac length_lia :=
  cbv delta [code_unit jsstring]; rewrite ?length_app; cbn [List.length]; lia.

Lemma skipn_exact (A : Type) (l r : list A) (n : nat) :
  n = List.length l -> skipn n (l ++ r) = r.
Proof.
  intros ->. induction l as [|x l IH]; [reflexivity|]. exact IH.
Qed.

Lemma lazy_group_found (g rest : jsstring) :
  forallb quiet_bold g = true ->
  forallb (fun c => negb (is_line_terminator c)) g = true ->
  lazy_group (g ++ 42 :: 42 :: rest) = Some g.
Proof.
  induction g as [|c g IH]; intros Hq Ht; [reflexivity|].
  cbn [forallb] in Hq, Ht. apply andb_true_iff in Hq, Ht.
  destruct Hq as [Hc Hq], Ht as [Hl Ht].
  unfold quiet_bold in Hc. apply negb_true_iff in Hc, Hl.
  cbn [app lazy_group]. rewrite Hc, Hl. cbn [andb]. now rewrite IH.
Qed.

Lemma digit_quiet (c : code_unit) :
  is_digit c = true ->
  quiet_bold c = true /\ quiet_link c = true /\ quiet_newline c = true.
Proof.
  unfold is_digit, quiet_bold, quiet_link, quiet_newline, LF.
  rewrite andb_true_iff, !N.leb_le, !negb_true_iff, !N.eqb_neq. lia.
Qed.

Lemma digits_quiet (d : jsstring) :
  forallb is_digit d = true ->
  forallb quiet_bold d = true /\ forallb quiet_link d = true
  /\ forallb quiet_newline d = true.
Proof.
  induction d as [|c d IH]; intros H; [repeat split|].
  cbn [forallb] in *. apply andb_true_iff in H. destruct H as [Hc Hd].
  destruct (IH Hd) as [H1 [H2 H3]], (digit_quiet c Hc) as [Q1 [Q2 Q3]].
  now rewrite H1, H2, H3, Q1, Q2, Q3.
Qed.

Lemma space_quiet (w : code_unit) :
  is_space w = true -> quiet_bold w = true /\ quiet_link w = true.
Proof.
  intros H. unfold quiet_bold, quiet_link.
  split; apply negb_true_iff, N.eqb_neq; intros ->; discriminate.
Qed.

Lemma digit_run_found (d r : jsstring) (c : code_unit) :
  forallb is_digit d = true ->
  is_digit c = false ->
  digit_run (d ++ c :: r) = (d, c :: r).
Proof.
  intros Hd Hc. induction d as [|x d IH]; cbn [app digit_run].
  - now rewrite Hc.
  - cbn [forallb] in Hd. apply andb_true_iff in Hd. destruct Hd as [Hx Hd].
    now rewrite Hx, IH.
Qed.

Lemma run_until_found (stop : code_unit) (g r : jsstring) :
  forallb (fun c => negb (c =? stop)) g = true ->
  run_until stop (g ++ stop :: r) = (g, stop :: r).
Proof.
  intros Hg. induction g as [|x g IH]; cbn [app run_until].
  - now rewrite N.eqb_refl.
  - cbn [forallb] in Hg. apply andb_true_iff in Hg. destruct Hg as [Hx Hg].
    apply negb_true_iff in Hx. now rewrite Hx, IH.
Qed.

(** The three passes after the first leave a plain text alone. *)
Lemma later_passes_plain (s : jsstring) :
  forallb plain s = true ->
  replace_all newline_at 0
    (replace_all numbered_at 0 (replace_all link_at 0 s)) = s.
Proof.
  intros H. destruct (plain_quiet s H) as [_ [H2 [H3 H4]]].
  rewrite (replace_all_quiet link_at quiet_link s link_at_quiet H2).
  rewrite (replace_all_quiet numbered_at quiet_numbered s numbered_at_quiet H3).
  apply (replace_all_quiet newline_at quiet_newline s newline_at_quiet H4).
Qed.

(** A text between two pairs of asterisks, on one line and with no
    asterisk of its own, is put between [<strong>] and [</strong>]; the
    plain text around it stays. *)
Theorem formatBotMessage_bold (a x b : jsstring) :
  forallb plain a = true ->
  forallb plain x = true ->
  forallb (fun c => negb (is_line_terminator c)) x = true ->
  nonempty x = true ->
  forallb plain b = true ->
  formatBotMessage (a ++ js "**" ++ x ++ js "**" ++ b)
  = a ++ js "<strong>" ++ x ++ js "</strong>" ++ b.
Proof.
  intros Ha Hx Hl Hn Hb.
  destruct (plain_quiet a Ha) as [Ha1 _], (plain_quiet x Hx) as [Hx1 _],
    (plain_quiet b Hb) as [Hb1 _].
  destruct x as [|c x]; [discriminate|].
  assert (Hpass :
            replace_all bold_at 0 (a ++ js "**" ++ (c :: x) ++ js "**" ++ b)
            = a ++ js "<strong>" ++ (c :: x) ++ js "</strong>" ++ b).
  { rewrite (replace_all_prefix bold_at quiet_bold a _ bold_at_quiet Ha1).
    f_equal. change (js "**") with [42; 42]. cbn [app].
    cbn [forallb] in Hx1, Hl. apply andb_true_iff in Hx1, Hl.
    destruct Hx1 as [_ Hx1], Hl as [Hc Hl].
    erewrite replace_all_match.
    2:{ unfold bold_at. rewrite Hc. cbn [N.eqb Pos.eqb andb].
        replace (lazy_group _) with (Some x)
          by (symmetry; apply (lazy_group_found x b Hx1 Hl)).
        reflexivity. }
    rewrite <- !app_assoc. f_equal. cbn [app]. f_equal. f_equal.
    change (42 :: c :: x ++ 42 :: 42 :: b)
      with ((42 :: c :: x) ++ [42; 42] ++ b).
    rewrite app_assoc, skipn_exact
      by length_lia.
    now rewrite (replace_all_quiet bold_at quiet_bold b bold_at_quiet Hb1). }
  unfold formatBotMessage. rewrite Hpass. apply later_passes_plain.
  rewrite !forallb_app, Ha, Hx, Hb. reflexivity.
Qed.

(** A number, a point and a white space after it get a [<br>] before the
    number, and the white space becomes a blank, wherever they stand in
    the text. *)
Theorem formatBotMessage_numbered (a d b : jsstring) (w : code_unit) :
  forallb plain a = true ->
  forallb is_digit d = true ->
  nonempty d = true ->
  is_space w = true ->
  forallb plain b = true ->
  formatBotMessage (a ++ d ++ 46 :: w :: b)
  = a ++ js "<br>" ++ d ++ js ". " ++ b.
Proof.
  intros Ha Hd Hn Hw Hb.
  destruct (plain_quiet a Ha) as [Ha1 [Ha2 [Ha3 Ha4]]],
    (plain_quiet b Hb) as [Hb1 [Hb2 [Hb3 Hb4]]],
    (digits_quiet d Hd) as [Hd1 [Hd2 Hd4]], (space_quiet w Hw) as [Hw1 Hw2].
  unfold formatBotMessage.
  rewrite (replace_all_quiet bold_at quiet_bold _ bold_at_quiet)
    by (rewrite !forallb_app; cbn [forallb]; now rewrite Ha1, Hd1, Hw1, Hb1).
  rewrite (replace_all_quiet link_at quiet_link _ link_at_quiet)
    by (rewrite !forallb_app; cbn [forallb]; now rewrite Ha2, Hd2, Hw2, Hb2).
  rewrite (replace_all_prefix numbered_at quiet_numbered a _
             numbered_at_quiet Ha3).
  destruct d as [|c d]; [discriminate|]. cbn [app].
  erewrite replace_all_match.
  2:{ unfold numbered_at.
      replace (digit_run _) with (c :: d, 46 :: w :: b)
        by (symmetry; apply (digit_run_found (c :: d) (w :: b) 46 Hd eq_refl)).
      rewrite Hw. reflexivity. }
  assert (E : d ++ 46 :: w :: b = (d ++ [46; w]) ++ b)
    by now rewrite <- app_assoc.
  rewrite E, (skipn_exact _ (d ++ [46; w]) b) by length_lia.
  rewrite (replace_all_quiet numbered_at quiet_numbered b
             numbered_at_quiet Hb3).
  rewrite <- !app_assoc.
  apply (replace_all_quiet newline_at quiet_newline _ newline_at_quiet).
  rewrite !forallb_app, Ha4, Hd4, Hb4. reflexivity.
Qed.

Lemma link_at_found (t u b : jsstring) :
  nonempty t = true ->
  forallb (fun c => negb (c =? 93)) t = true ->
  nonempty u = true ->
  forallb (fun c => negb (c =? 41)) u = true ->
  link_at (91 :: t ++ 93 :: 40 :: u ++ 41 :: b)
  = Some (jq "<a href='" ++ u
          ++ jq "' target='_blank' rel='noopener noreferrer' "
          ++ jq "style='color: #667eea; text-decoration: underline;'>"
          ++ t ++ js "</a>",
          (1 + List.length t + 2 + List.length u + 1)%nat).
Proof.
  intros Hnt Ht Hnu Hu. unfold link_at. cbn [N.eqb Pos.eqb].
  replace (run_until 93 _) with (t, 93 :: 40 :: u ++ 41 :: b)
    by (symmetry; apply (run_until_found 93 t _ Ht)).
  destruct t as [|c t]; [discriminate|]. cbn [N.eqb Pos.eqb].
  replace (run_until 41 _) with (u, 41 :: b)
    by (symmetry; apply (run_until_found 41 u _ Hu)).
  destruct u as [|e u]; [discriminate|]. reflexivity.
Qed.

(** [[text](url)] becomes a link to [url] that reads [text] and opens in a
    new tab, when [text] has no closing bracket and [url] no closing
    parenthesis; the plain text around it stays. *)
Theorem formatBotMessage_link (a t u b : jsstring) :
  forallb plain a = true ->
  forallb plain t = true ->
  forallb (fun c => negb (c =? 93)) t = true ->
  nonempty t = true ->
  forallb plain u = true ->
  forallb (fun c => negb (c =? 41)) u = true ->
  nonempty u = true ->
  forallb plain b = true ->
  formatBotMessage (a ++ js "[" ++ t ++ js "](" ++ u ++ js ")" ++ b)
  = a ++ jq "<a href='" ++ u
    ++ jq "' target='_blank' rel='noopener noreferrer' "
    ++ jq "style='color: #667eea; text-decoration: underline;'>"
    ++ t ++ js "</a>" ++ b.
Proof.
  intros Ha Ht Ht' Hnt Hu Hu' Hnu Hb.
  destruct (plain_quiet a Ha) as [Ha1 [Ha2 [Ha3 Ha4]]],
    (plain_quiet t Ht) as [Ht1 [Ht2 [Ht3 Ht4]]],
    (plain_quiet u Hu) as [Hu1 [Hu2 [Hu3 Hu4]]],
    (plain_quiet b Hb) as [Hb1 [Hb2 [Hb3 Hb4]]].
  unfold formatBotMessage.
  rewrite (replace_all_quiet bold_at quiet_bold _ bold_at_quiet)
    by (rewrite !forallb_app, Ha1, Ht1, Hu1, Hb1; reflexivity).
  rewrite (replace_all_prefix link_at quiet_link a _ link_at_quiet Ha2).
  change (js "[" ++ t ++ js "](" ++ u ++ js ")" ++ b)
    with (91 :: t ++ 93 :: 40 :: u ++ 41 :: b).
  erewrite replace_all_match by (apply link_at_found; assumption).
  replace (skipn _ _) with b.
  2:{ symmetry.
      replace (t ++ 93 :: 40 :: u ++ 41 :: b)
        with ((t ++ [93; 40] ++ u ++ [41]) ++ b)
        by now rewrite <- !app_assoc.
      apply skipn_exact. length_lia. }
  rewrite (replace_all_quiet link_at quiet_link b link_at_quiet Hb2).
  change (jq "style='color: #667eea; text-decoration: underline;'>")
    with (jq "style='color: #"
          ++ 54 :: 54 :: 55 :: jq "eea; text-decoration: underline;'>").
  rewrite <- !app_assoc.
  pose (tail := jq "eea; text-decoration: underline;'>"
                ++ t ++ js "</a>" ++ b).
  change (replace_all newline_at 0
            (replace_all numbered_at 0
               (a ++ jq "<a href='" ++ u
                ++ jq "' target='_blank' rel='noopener noreferrer' "
                ++ jq "style='color: #" ++ 54 :: 54 :: 55 :: tail))
          = a ++ jq "<a href='" ++ u
            ++ jq "' target='_blank' rel='noopener noreferrer' "
            ++ jq "style='color: #" ++ 54 :: 54 :: 55 :: tail).
  assert (Htail : forallb quiet_numbered tail = true)
    by (unfold tail; rewrite !forallb_app, Ht3, Hb3; reflexivity).
  assert (Hpass :
            replace_all numbered_at 0
              (a ++ jq "<a href='" ++ u
               ++ jq "' target='_blank' rel='noopener noreferrer' "
               ++ jq "style='color: #" ++ 54 :: 54 :: 55 :: tail)
            = a ++ jq "<a href='" ++ u
              ++ jq "' target='_blank' rel='noopener noreferrer' "
              ++ jq "style='color: #" ++ 54 :: 54 :: 55 :: tail).
  { rewrite !app_assoc.
    rewrite (replace_all_prefix numbered_at quiet_numbered _ _
               numbered_at_quiet)
      by (rewrite !forallb_app, Ha3, Hu3; reflexivity).
    f_equal.
    assert (Hhead : exists x r, tail = x :: r /\ is_digit x = false).
    { unfold tail. eexists. eexists. split; reflexivity. }
    destruct Hhead as [x [r [Hx Hd]]].
    assert (Hnone : forall p, forallb is_digit p = true -> p <> [] ->
                              numbered_at (p ++ tail) = None).
    { intros p Hp Hne. unfold numbered_at. rewrite Hx.
      replace (digit_run _) with (p, x :: r)
        by (symmetry; apply (digit_run_found p r x Hp Hd)).
      destruct p as [|y p]; [contradiction|].
      assert (Hx46 : (x =? 46) = false).
      { unfold tail in Hx. injection Hx as Hx _. now rewrite <- Hx. }
      destruct r; [reflexivity|]. now rewrite Hx46. }
    erewrite replace_all_none
      by (apply (Hnone [54; 54; 55]); [reflexivity|discriminate]).
    erewrite replace_all_none
      by (apply (Hnone [54; 55]); [reflexivity|discriminate]).
    erewrite replace_all_none
      by (apply (Hnone [55]); [reflexivity|discriminate]).
    now rewrite (replace_all_quiet numbered_at quiet_numbered tail
                   numbered_at_quiet Htail). }
  rewrite Hpass.
  apply (replace_all_quiet newline_at quiet_newline _ newline_at_quiet).
  rewrite !forallb_app. cbn [forallb]. unfold tail.
  rewrite !forallb_app, Ha4, Hu4, Ht4, Hb4. reflexivity.
Qed.

(** ** The typing effect *)

Lemma firstn_snoc_charAt (text : jsstring) (n : nat) :
  (n < List.length text)%nat ->
  firstn n text ++ Typing.charAt text n = firstn (S n) text.
Proof.
  revert n. induction text as [|c text IH]; intros n Hn; [cbn in Hn; lia|].
  destruct n as [|n]; [reflexivity|].
  cbn [firstn app]. unfold Typing.charAt. cbn [nth_error].
  f_equal. apply IH. cbn in Hn. lia.
Qed.

(** While it types, the effect shows the characters typed so far. *)
Lemma typing_after (text : jsstring) (n : nat) :
  forall t d,
    Typing.textContent t = firstn (Typing.i t) text ->
    (Typing.i t <= List.length text)%nat ->
    Typing.timer t = Some d ->
    Typing.scrolled t = Typing.i t ->
    let t' := Typing.after n text t in
    Typing.textContent t' = firstn (Typing.i t + n) text
    /\ Typing.scrolled t' = Nat.min (Typing.i t + n) (List.length text)
    /\ (Typing.timer t' = None <-> (List.length text < Typing.i t + n)%nat).
Proof.
  induction n as [|n IH]; intros t d Ht Hi Hd Hs; cbn zeta.
  - cbn [Typing.after]. rewrite Nat.add_0_r, Hd. repeat split.
    + exact Ht.
    + rewrite Hs. lia.
    + discriminate.
    + lia.
  - cbn [Typing.after]. rewrite Hd. unfold Typing.type.
    destruct (Nat.ltb_spec (Typing.i t) (List.length text)) as [Hlt|Hge].
    + match goal with
      | |- context [Typing.after n text ?s] =>
          destruct (IH s 20%nat) as [H1 [H2 H3]]
      end; cbn [Typing.textContent Typing.i Typing.timer Typing.scrolled].
      * rewrite Ht. now apply firstn_snoc_charAt.
      * lia.
      * reflexivity.
      * now rewrite Hs.
      * cbn [Typing.i] in H1, H2, H3.
        replace (Typing.i t + S n)%nat with (S (Typing.i t) + n)%nat by lia.
        repeat split; try assumption; apply H3.
    + assert (Hi' : Typing.i t = List.length text) by lia.
      destruct n; cbn [Typing.after Typing.timer Typing.textContent
                         Typing.scrolled];
        rewrite Ht, Hs, Hi', !firstn_all2 by lia;
        repeat split; try lia; reflexivity.
Qed.

(** The typing effect of the first message: after [n] timers it shows the
    first [n] characters of the text, so never anything but a prefix of
    it; it scrolls once for each; and it stops with the whole text shown,
    at the timer after the last character, when the delays of the timers
    add up to 400 ms and 20 ms for each character. *)
Theorem typing_shows_prefixes (text : jsstring) (n : nat) :
  Typing.textContent (Typing.after n text Typing.on_load) = firstn n text
  /\ Typing.scrolled (Typing.after n text Typing.on_load)
     = Nat.min n (List.length text)
  /\ (Typing.timer (Typing.after n text Typing.on_load) = None
      <-> (List.length text < n)%nat)
  /\ Typing.elapsed
       (Typing.after (S (List.length text)) text Typing.on_load)
     = (400 + 20 * List.length text)%nat.
Proof.
  destruct (typing_after text n Typing.on_load 400%nat)
    as [H1 [H2 H3]]; try reflexivity; [cbn; lia|].
  cbn [Typing.i Typing.on_load plus] in H1, H2, H3.
  split; [exact H1|]. split; [exact H2|]. split; [exact H3|].
  assert (G : forall m t d,
             (Typing.i t + m = List.length text)%nat ->
             Typing.timer t = Some d ->
             Typing.elapsed (Typing.after (S m) text t)
             = (Typing.elapsed t + d + 20 * m)%nat).
  { assert (Hstep : forall m t d,
               Typing.timer t = Some d ->
               Typing.after (S m) text t
               = Typing.after m text (Typing.type text t)).
    { intros m t d Hd. change (Typing.after (S m) text t)
        with (match Typing.timer t with
              | Some _ => Typing.after m text (Typing.type text t)
              | None => t
              end). now rewrite Hd. }
    induction m as [|m IH]; intros t d Hm Hd; rewrite (Hstep _ t d Hd).
    - cbn [Typing.after]. unfold Typing.type. rewrite Hd.
      destruct (Nat.ltb_spec (Typing.i t) (List.length text)); [lia|].
      cbn [Typing.elapsed]. lia.
    - rewrite (IH (Typing.type text t) 20%nat); unfold Typing.type;
        rewrite ?Hd;
        destruct (Nat.ltb_spec (Typing.i t) (List.length text));
        cbn [Typing.elapsed Typing.i Typing.timer]; try lia; reflexivity. }
  rewrite (G (List.length text) Typing.on_load 400%nat);
    [cbn [Typing.elapsed Typing.on_load]; lia|reflexivity|reflexivity].
Qed.

(** ** What a run of [sendMessage] leaves alone *)

Lemma requests_app (l1 l2 : list effect) :
  requests (l1 ++ l2) = requests l1 ++ requests l2.
Proof.
  induction l1 as [|e l1 IH]; [reflexivity|].
  destruct e; cbn; now rewrite ?IH.
Qed.

Lemma frame_refl (k : nat) (w : page) : frame k w w.
Proof. repeat split. Qed.

Lemma frame_emit (k : nat) (e : effect) (w x : page) :
  requests [e] = [] -> frame k w x -> frame k w (emit e x).
Proof.
  intros He [H1 [H2 [H3 H4]]]. repeat split; try assumption.
  cbn [log emit]. now rewrite requests_app, He, app_nil_r.
Qed.

Lemma frame_update (k : nat) (f : element -> element) (w x : page) :
  frame k w x ->
  frame k w {| userInput := userInput x;
               chatMessages := update_body k f (chatMessages x);
               log := log x |}.
Proof.
  intros [H1 [H2 [H3 H4]]]. repeat split; try assumption; cbn.
  - now rewrite length_update_body.
  - intros j Hj. rewrite nth_error_update_body.
    destruct (Nat.eqb_spec j k); [contradiction|now apply H2].
Qed.

Ltac frame_steps :=
  repeat first
    [ apply frame_refl
    | assumption
    | apply frame_emit; [reflexivity|]
    | apply frame_update ].

Section Frame.

Variable Number_toString : number -> jsstring.
Variable parseFragment : jsstring -> jsstring -> list node.

Local Abbreviation getElementById := (getElementById parseFragment).
Local Abbreviation on_failure := (on_failure parseFragment).

Local Abbreviation on_fields := (on_fields Number_toString).
Local Abbreviation for_lines := (for_lines Number_toString).
Local Abbreviation read_loop := (read_loop Number_toString).
Local Abbreviation sendMessage :=
  (sendMessage Number_toString parseFragment).
Local Abbreviation after_chunks := (after_chunks Number_toString).
Local Abbreviation fragments_of_lines := (fragments_of_lines Number_toString).

Lemma on_fields_frame (k : nat) (data : JValue) (w : page) (c : consumer) :
  frame k w (dom c) -> frame k w (dom (snd (on_fields k data c))).
Proof.
  intros H. unfold Chat.on_fields.
  destruct (ToBoolean (field (js "error") data)).
  - cbn [snd dom on_dom]. unfold set_innerHTML. frame_steps.
  - destruct (field (js "content") data) as [v|];
      [destruct (ToBoolean (Some v));
       [destruct (ToString Number_toString v) as [t|]|]|];
      destruct (ToBoolean (field (js "done") data));
      cbn [snd dom on_dom]; unfold set_innerHTML, set_id; frame_steps.
Qed.

Lemma for_lines_frame (k : nat) (lines : list jsstring) (w : page) :
  forall c, frame k w (dom c) -> frame k w (dom (for_lines k lines c)).
Proof.
  induction lines as [|line rest IH]; intros c H; [exact H|].
  rewrite for_lines_cons.
  destruct (event_of_line line) as [data|]; [|now apply IH].
  pose proof (on_fields_frame k data w c H) as Hf.
  destruct (on_fields k data c) as [[|] c']; cbn [snd] in Hf.
  - now apply IH.
  - exact Hf.
Qed.

Lemma read_loop_frame (k : nat) (reads : list read_result) (w : page) :
  forall c,
    frame k w (dom c) -> frame k w (dom (state_of (read_loop k reads c))).
Proof.
  induction reads as [|r reads IH]; intros c H.
  - cbn. frame_steps.
  - destruct r; [|cbn; frame_steps..].
    rewrite read_loop_chunk. apply IH, for_lines_frame.
    cbn [dom on_dom]. frame_steps.
Qed.

(** The page at the start of the read loop, against the page before. *)
Lemma prologue_shape (text : jsstring) (w : page) :
  let w1 := emit (Request text) (prologue text w) in
  chatMessages w1
  = (chatMessages w ++ [user_message text])
    ++ [{| wrapper := js "message";
           avatar := {| className := js "message-avatar bot-avatar";
                        id := []; html := Text teacher |};
           body := {| className := js "bot-message";
                      id := streaming_message; html := empty_html |} |}]
  /\ userInput w1 = []
  /\ requests (log w1) = requests (log w) ++ [text].
Proof.
  cbn zeta. split; [reflexivity|]. split; [reflexivity|].
  unfold prologue, addMessage, emit, appendChild. cbn [log].
  rewrite !requests_app. cbn [requests]. now rewrite !app_nil_r.
Qed.

Lemma on_failure_frame (w : page) :
  List.length (chatMessages (on_failure w)) = List.length (chatMessages w)
  /\ userInput (on_failure w) = userInput w
  /\ requests (log (on_failure w)) = requests (log w).
Proof.
  pose proof (on_failure_spec parseFragment w) as H.
  destruct (getElementById streaming_message w) as [t|].
  - destruct H as [_ [_ [Hl [_ [_ [Hu Hlen]]]]]].
    split; [exact Hlen|]. split; [exact Hu|].
    rewrite Hl, requests_app. cbn. apply app_nil_r.
  - destruct H as [-> _]. repeat split.
Qed.

(** The page [sendMessage] ends with, by the state its read loop ends in. *)
Lemma sendMessage_run (net : fetch_result) (w : page) :
  nonempty (trim (userInput w)) = true ->
  let k := S (List.length (chatMessages w)) in
  let w1 := emit (Request (trim (userInput w)))
              (prologue (trim (userInput w)) w) in
  exists p,
    frame k w1 p
    /\ (sendMessage net w = p \/ sendMessage net w = on_failure p).
Proof.
  intros Hn k w1. destruct net as [|reads].
  - exists w1. split; [apply frame_refl|right].
    unfold Chat.sendMessage. now rewrite Hn.
  - rewrite (sendMessage_response _ _ reads w Hn).
    fold k. fold w1.
    pose proof (read_loop_frame k reads w1 {| fullText := []; dom := w1 |}
                  (frame_refl k w1)) as Hf.
    destruct (read_loop k reads {| fullText := []; dom := w1 |}) as [c|c];
      exists (dom c); (split; [exact Hf|]); [now left|now right].
Qed.


End Frame.


Lemma firstn_same (A : Type) (l l' : list A) :
  (List.length l <= List.length l')%nat ->
  (forall j, (j < List.length l)%nat -> nth_error l' j = nth_error l j) ->
  firstn (List.length l) l' = l.
Proof.
  revert l'. induction l as [|x l IH]; intros l' Hlen H; [reflexivity|].
  destruct l' as [|y l']; [cbn in Hlen; lia|].
  cbn [List.length firstn].
  pose proof (H O ltac:(cbn; lia)) as H0. cbn in H0. injection H0 as ->.
  f_equal. apply IH; [cbn in Hlen; lia|].
  intros j Hj. apply (H (S j)). cbn. lia.
Qed.

Lemma marker_some_lt (j : nat) (w : page) (s : jsstring) :
  marker j w = Some s -> (j < List.length (chatMessages w))%nat.
Proof.
  unfold marker. intros H. apply nth_error_Some.
  now destruct (nth_error (chatMessages w) j).
Qed.

Section Earlier.

Variable Number_toString : number -> jsstring.
Variable parseFragment : jsstring -> jsstring -> list node.

Local Abbreviation getElementById := (getElementById parseFragment).
Local Abbreviation on_failure := (on_failure parseFragment).

Local Abbreviation on_fields := (on_fields Number_toString).
Local Abbreviation for_lines := (for_lines Number_toString).
Local Abbreviation read_loop := (read_loop Number_toString).
Local Abbreviation sendMessage :=
  (sendMessage Number_toString parseFragment).
Local Abbreviation fragments_of_lines := (fragments_of_lines Number_toString).
Local Abbreviation taken_of_lines := (taken_of_lines Number_toString).

(** The messages that were there, on a page that differs from the one at
    the start of the read loop in the answer at most. *)
Lemma earlier_in_frame (text : jsstring) (w p : page) (j : nat) :
  frame (S (List.length (chatMessages w)))
    (emit (Request text) (prologue text w)) p ->
  (j < List.length (chatMessages w))%nat ->
  nth_error (chatMessages p) j = nth_error (chatMessages w) j.
Proof.
  intros [_ [F2 _]] Hj. rewrite F2 by lia.
  destruct (prologue_shape text w) as [S1 _]. cbn zeta in S1.
  rewrite S1, <- app_assoc. now apply nth_error_app1.
Qed.

Lemma frame_length (text : jsstring) (w p : page) :
  frame (S (List.length (chatMessages w)))
    (emit (Request text) (prologue text w)) p ->
  List.length (chatMessages p) = (List.length (chatMessages w) + 2)%nat.
Proof.
  intros [F1 _]. destruct (prologue_shape text w) as [S1 _].
  cbn zeta in S1. rewrite F1, S1, !length_app. cbn [List.length]. lia.
Qed.

(** The first message that holds an element with the id is where
    [getElementById] finds it. *)
Lemma find_id_unique (i : jsstring) (ms : list message) (j : nat)
    (m : message) (p : part) (s : spot) :
  nth_error ms j = Some m ->
  find_in_message parseFragment i m = Some (p, s) ->
  (forall j' m',
      (j' < j)%nat -> nth_error ms j' = Some m' ->
      find_in_message parseFragment i m' = None) ->
  find_id parseFragment i ms
  = Some {| message_of := j; part_of := p; spot_of := s |}.
Proof.
  intros Hn Hf Hbefore.
  pose proof (find_id_first parseFragment i ms) as H.
  destruct (find_id parseFragment i ms) as [[j0 p0 s0]|].
  - cbn [message_of part_of spot_of] in H.
    destruct H as [[m0 [Hn0 Hf0]] Hfirst].
    destruct (Nat.lt_trichotomy j0 j) as [Hlt|[->|Hgt]].
    + rewrite (Hbefore j0 m0 Hlt Hn0) in Hf0. discriminate.
    + rewrite Hn in Hn0. injection Hn0 as <-.
      rewrite Hf in Hf0. now injection Hf0 as <- <-.
    + rewrite (Hfirst j m Hgt Hn) in Hf. discriminate.
  - rewrite (H j m Hn) in Hf. discriminate.
Qed.

(** The messages of before are not written to, as long as the stream ends
    of itself; they are not if it fails either, unless one of them holds an
    element with the id of a streaming answer: an answer that was never
    completed, or an element that the text of an answer made. *)
Theorem sendMessage_keeps_earlier_messages (w : page) :
  nonempty (trim (userInput w)) = true ->
  (forall chunks rest,
      firstn (List.length (chatMessages w))
        (chatMessages
           (sendMessage (Response (map Chunk chunks ++ Done :: rest)) w))
      = chatMessages w)
  /\ (getElementById streaming_message w = None ->
      forall net,
        firstn (List.length (chatMessages w))
          (chatMessages (sendMessage net w))
        = chatMessages w).
Proof.
  intros Hn. split.
  - intros chunks rest. rewrite (sendMessage_response _ _ _ w Hn).
    set (w1 := emit (Request (trim (userInput w)))
                 (prologue (trim (userInput w)) w)).
    pose proof (read_loop_frame Number_toString
                  (S (List.length (chatMessages w)))
                  (map Chunk chunks ++ Done :: rest) w1
                  {| fullText := []; dom := w1 |}
                  (frame_refl _ w1)) as Hf.
    rewrite read_loop_app in Hf |- *. cbn [Chat.read_loop state_of] in Hf |- *.
    apply firstn_same.
    + rewrite (frame_length _ _ _ Hf). lia.
    + intros j Hj. apply (earlier_in_frame _ _ _ _ Hf Hj).
  - intros Hnone net.
    rewrite getElementById_streaming in Hnone.
    pose proof (find_id_first parseFragment streaming_message
                  (chatMessages w)) as Hw.
    rewrite Hnone in Hw.
    destruct (sendMessage_run Number_toString parseFragment net w Hn)
      as [p [Hf Hp]].
    cbn zeta in Hf.
    assert (Hearlier : forall j, (j < List.length (chatMessages w))%nat ->
                                 nth_error (chatMessages p) j
                                 = nth_error (chatMessages w) j)
      by (intros j Hj; apply (earlier_in_frame _ _ _ _ Hf Hj)).
    destruct Hp as [-> | ->].
    + apply firstn_same; [rewrite (frame_length _ _ _ Hf); lia|exact Hearlier].
    + destruct (on_failure_frame parseFragment p) as [L1 _].
      apply firstn_same; [rewrite L1, (frame_length _ _ _ Hf); lia|].
      intros j Hj. rewrite <- (Hearlier j Hj).
      pose proof (on_failure_spec parseFragment p) as Hs.
      destruct (getElementById streaming_message p) as [t|].
      * destruct Hs as [[m [Hm [Hfound _]]] [_ [_ [Hother _]]]].
        apply Hother. intros ->.
        rewrite (Hearlier _ Hj) in Hm.
        rewrite (Hw _ m Hm) in Hfound. discriminate.
      * now destruct Hs as [-> _].
Qed.


(** *** Markup in the text of an answer *)

Lemma update_body_at (f : element -> element) (l r : list message)
    (m : message) :
  update_body (List.length l) f (l ++ m :: r)
  = l ++ {| wrapper := wrapper m; avatar := avatar m; body := f (body m) |}
      :: r.
Proof.
  induction l as [|x l IH]; [reflexivity|].
  cbn [List.length app update_body]. now rewrite IH.
Qed.


(** *** An error in the middle of a chunk *)

Lemma taken_error_free (lines : list jsstring) :
  error_free_lines lines = true ->
  taken_of_lines lines = fragments_of_lines lines.
Proof.
  induction lines as [|line rest IH]; intros H; [reflexivity|].
  unfold error_free_lines in H. cbn [forallb] in H.
  apply andb_true_iff in H. destruct H as [Hl Hr].
  unfold Chat.fragments_of_lines. cbn [Chat.taken_of_lines flat_map].
  fold (fragments_of_lines rest). rewrite <- (IH Hr).
  destruct (event_of_line line) as [data|]; [|reflexivity].
  apply negb_true_iff in Hl. rewrite Hl.
  now destruct (content_of Number_toString data).
Qed.

Lemma for_lines_app_error_free (k : nat) (l1 l2 : list jsstring) :
  forall c,
    error_free_lines l1 = true ->
    for_lines k (l1 ++ l2) c = for_lines k l2 (for_lines k l1 c).
Proof.
  induction l1 as [|line rest IH]; intros c H; [reflexivity|].
  unfold error_free_lines in H. cbn [forallb] in H.
  apply andb_true_iff in H. destruct H as [Hl Hr].
  cbn [app]. rewrite !for_lines_cons.
  destruct (event_of_line line) as [data|]; [|now apply IH].
  apply negb_true_iff in Hl.
  destruct (on_fields_appends Number_toString k data c) as [Hc _].
  rewrite Hl in Hc.
  destruct (on_fields k data c) as [ctl c']. cbn [fst] in Hc. subst ctl.
  now apply IH.
Qed.

(** An event with an error flag ends its chunk: the answer shows the
    error message, the accumulated text is the one of the lines before
    it, and the lines after it in the chunk, whatever they are, have no
    effect. *)
Theorem error_event_ends_its_chunk (k : nat) (before : list jsstring)
    (line : jsstring) (data : JValue) (rest rest' : list jsstring)
    (c : consumer) (h : Html) :
  error_free_lines before = true ->
  event_of_line line = Some data ->
  has_error data = true ->
  displayed k (dom c) = Some h ->
  let c' := for_lines k (before ++ line :: rest) c in
  c' = for_lines k (before ++ line :: rest') c
  /\ displayed k (dom c') = Some (Formatted error_message)
  /\ fullText c' = fullText c ++ List.concat (fragments_of_lines before).
Proof.
  intros Hb He Herr Hd c'. unfold c'.
  rewrite !(for_lines_app_error_free k before _ c Hb).
  rewrite !(error_event_ends_chunk Number_toString k line data _ _ He Herr).
  split; [reflexivity|].
  destruct (for_lines_appends Number_toString k before c) as [Ht _].
  rewrite (taken_error_free before Hb) in Ht.
  split; [|exact Ht].
  cbn [dom on_dom]. rewrite displayed_emit.
  pose proof (for_lines_frame Number_toString k before (dom c) c
                (frame_refl k (dom c))) as [Hlen _].
  assert (Hk : (k < List.length (chatMessages (dom c)))%nat).
  { apply nth_error_Some. unfold displayed in Hd.
    now destruct (nth_error (chatMessages (dom c)) k). }
  rewrite <- Hlen in Hk. apply nth_error_Some in Hk.
  destruct (nth_error (chatMessages (dom (for_lines k before c))) k)
    as [m|] eqn:E; [|contradiction].
  apply (displayed_set_innerHTML k _ (html (body m))).
  unfold displayed. now rewrite E.
Qed.

End Earlier.

Lemma sendMessage_keeps_earlier_messages_witness :
  nonempty (trim (userInput finished_page)) = true
  /\ getElementById plain_text streaming_message finished_page = None
  /\ forall nts net,
       firstn 2
         (chatMessages (sendMessage nts plain_text net finished_page))
       = chatMessages finished_page.
Proof.
  split; [reflexivity|]. split; [reflexivity|]. intros nts net.
  exact (proj2 (sendMessage_keeps_earlier_messages nts plain_text
                  finished_page eq_refl) eq_refl net).
Defined.



Lemma error_event_ends_its_chunk_witness :
  error_free_lines [jq "data: {'content':'Hi'}"] = true
  /\ event_of_line (jq "data: {'error':true}")
     = Some (JObject [(js "error", JBool true)])
  /\ has_error (JObject [(js "error", JBool true)]) = true
  /\ displayed 1 (dom (first_state (js "hello"))) = Some empty_html
  /\ forall nts,
       for_lines nts 1
         ([jq "data: {'content':'Hi'}"]
          ++ jq "data: {'error':true}" :: [jq "data: {'content':'late'}"])
         (first_state (js "hello"))
       = for_lines nts 1
           ([jq "data: {'content':'Hi'}"] ++ jq "data: {'error':true}" :: [])
           (first_state (js "hello")).
Proof.
  split; [vm_compute; reflexivity|]. split; [vm_compute; reflexivity|].
  split; [reflexivity|]. split; [reflexivity|]. intros nts.
  apply (error_event_ends_its_chunk nts 1 [jq "data: {'content':'Hi'}"]
           (jq "data: {'error':true}") (JObject [(js "error", JBool true)])
           [jq "data: {'content':'late'}"] [] (first_state (js "hello"))
           empty_html);
    vm_compute; reflexivity.
Defined.

(** * More of the admin page *)

(** ** Substrings *)

Lemma startsWith_iff (s p : jsstring) :
  startsWith s p = true <-> exists q, s = p ++ q.
Proof.
  revert s. induction p as [|x p IH]; intros s.
  - destruct s; cbn; split; intros; try reflexivity; eexists; reflexivity.
  - destruct s as [|y s]; cbn.
    + split; [discriminate|]. intros [q Hq]. discriminate.
    + rewrite andb_true_iff, N.eqb_eq, IH. split.
      * intros [-> [q ->]]. now exists q.
      * intros [q Hq]. injection Hq as -> ->. split; [reflexivity|].
        now exists q.
Qed.

Lemma includes_iff (s t : jsstring) :
  includes s t = true <-> exists a b, s = a ++ t ++ b.
Proof.
  induction s as [|c s IH].
  - cbn [includes]. rewrite orb_false_r, startsWith_iff. split.
    + intros [q Hq]. now exists [], q.
    + intros [a [b H]]. symmetry in H.
      apply app_eq_nil in H. destruct H as [-> H].
      apply app_eq_nil in H. destruct H as [-> ->]. now exists [].
  - cbn [includes]. rewrite orb_true_iff, startsWith_iff, IH. split.
    + intros [[q Hq] | [a [b H]]].
      * now exists [], q.
      * exists (c :: a), b. cbn. now rewrite H.
    + intros [[|x a] [b H]].
      * left. now exists b.
      * right. cbn in H. injection H as -> ->. now exists a, b.
Qed.

Lemma includes_trans (s t u : jsstring) :
  includes s t = true -> includes t u = true -> includes s u = true.
Proof.
  rewrite !includes_iff. intros [a [b ->]] [a' [b' ->]].
  exists (a ++ a'), (b' ++ b). now rewrite <- !app_assoc.
Qed.

Lemma includes_map (f : code_unit -> code_unit) (s t : jsstring) :
  includes s t = true -> includes (map f s) (map f t) = true.
Proof.
  rewrite !includes_iff. intros [a [b ->]].
  exists (map f a), (map f b). now rewrite !map_app.
Qed.

Lemma includes_forallb (p : code_unit -> bool) (s t : jsstring) :
  includes s t = true -> forallb p s = true -> forallb p t = true.
Proof.
  rewrite includes_iff. intros [a [b ->]].
  rewrite !forallb_app, !andb_true_iff. tauto.
Qed.

Section SearchFacts.

Variable toLowerCase : jsstring -> jsstring.

(** The entries the two filters of [filterKnowledge] let through. *)
Lemma filtered_matching (term selected : jsstring) (l : list entry) :
  (if nonempty term
   then filter (fun item =>
                  includes (toLowerCase (question item)) term
                  || includes (toLowerCase (answer item)) term
                  || includes (toLowerCase (category item)) term
                  || includes (toLowerCase (source item)) term)
          (if negb (jsstring_eqb selected all)
           then filter (fun item => jsstring_eqb (category item) selected) l
           else l)
   else if negb (jsstring_eqb selected all)
        then filter (fun item => jsstring_eqb (category item) selected) l
        else l)
  = filter (matching toLowerCase term selected) l.
Proof.
  unfold matching.
  destruct (jsstring_eqb selected all); cbn [negb orb];
    destruct term as [|x t]; cbn [nonempty].
  - symmetry. apply filter_all. intros e. now rewrite includes_empty.
  - apply filter_ext. intros e. reflexivity.
  - apply filter_ext. intros e. rewrite includes_empty. cbn.
    now rewrite andb_true_r.
  - rewrite filter_filter. apply filter_ext. intros e. reflexivity.
Qed.

(** [filterKnowledge], by the list it shows. *)
Lemma filterKnowledge_eq (a : admin) :
  let l := filter (matching toLowerCase (searchTerm_of toLowerCase a)
                     (selectedCategory_of a))
             (allKnowledge a) in
  filterKnowledge toLowerCase a
  = updateFilteredCount (List.length l)
      (updateSearchResults (searchTerm_of toLowerCase a) (selectedCategory_of a)
         (List.length l) (displayKnowledge l a)).
Proof.
  cbn zeta. unfold filterKnowledge. cbn zeta.
  now rewrite filtered_matching.
Qed.


Lemma filterKnowledge_shown (a : admin) :
  shown (knowledgeList (filterKnowledge toLowerCase a))
  = filter (matching toLowerCase (searchTerm_of toLowerCase a)
              (selectedCategory_of a))
      (allKnowledge a).
Proof.
  rewrite filterKnowledge_eq. cbn zeta.
  rewrite filterKnowledge_listing. apply shown_displayKnowledge.
Qed.

(** On the same entries and with the same selection, a search whose
    lower-cased term has the lower-cased term of another inside it shows
    nothing that the other does not show.  A term of ASCII characters that
    has the typed term of before inside it, as when the user types on, is
    such a term, [toLowerCase] being on ASCII text the lower-casing of the
    letters A to Z; of other terms this is not said, the lower-casing of a
    letter may depend on what follows it. *)
Theorem longer_term_narrows (a1 a2 : admin) :
  allKnowledge a2 = allKnowledge a1 ->
  selectedCategory_of a2 = selectedCategory_of a1 ->
  (includes (searchTerm_of toLowerCase a2) (searchTerm_of toLowerCase a1)
   = true ->
   incl (shown (knowledgeList (filterKnowledge toLowerCase a2)))
     (shown (knowledgeList (filterKnowledge toLowerCase a1))))
  /\ forall typed1 typed2,
       (forall s, forallb is_ascii s = true -> toLowerCase s = ascii_lower s) ->
       searchInput a1 = Some typed1 ->
       searchInput a2 = Some typed2 ->
       forallb is_ascii typed2 = true ->
       includes typed2 typed1 = true ->
       incl (shown (knowledgeList (filterKnowledge toLowerCase a2)))
         (shown (knowledgeList (filterKnowledge toLowerCase a1))).
Proof.
  intros Hk Hc.
  assert (Hgen : includes (searchTerm_of toLowerCase a2)
                   (searchTerm_of toLowerCase a1) = true ->
                 incl (shown (knowledgeList (filterKnowledge toLowerCase a2)))
                   (shown (knowledgeList (filterKnowledge toLowerCase a1)))).
  { intros Ht e. rewrite !filterKnowledge_shown, Hk, Hc, !filter_In.
    intros [Hin Hm]. split; [exact Hin|].
    unfold matching in *. apply andb_true_iff in Hm. destruct Hm as [Hs Hm].
    rewrite Hs. cbn [andb].
    rewrite !orb_true_iff in *.
    destruct Hm as [[[H|H]|H]|H];
      [left; left; left|left; left; right|left; right|right];
      eapply includes_trans; eassumption. }
  split; [exact Hgen|].
  intros typed1 typed2 Hhost H1 H2 Hascii Hin. apply Hgen.
  unfold searchTerm_of. rewrite H1, H2.
  rewrite (Hhost typed2 Hascii).
  rewrite (Hhost typed1 (includes_forallb _ _ _ Hin Hascii)).
  now apply includes_map.
Qed.


End SearchFacts.

Lemma longer_term_narrows_witness :
  allKnowledge (searching (js "Library"))
  = allKnowledge (searching (js "Lib"))
  /\ selectedCategory_of (searching (js "Library"))
     = selectedCategory_of (searching (js "Lib"))
  /\ incl
       (shown (knowledgeList
                 (filterKnowledge ascii_lower (searching (js "Library")))))
       (shown (knowledgeList
                 (filterKnowledge ascii_lower (searching (js "Lib")))))
  /\ shown (knowledgeList
              (filterKnowledge ascii_lower (searching (js "Library"))))
     = [library_entry].
Proof.
  split; [reflexivity|]. split; [reflexivity|].
  split; [|vm_compute; reflexivity].
  exact (proj2 (longer_term_narrows ascii_lower (searching (js "Lib"))
                  (searching (js "Library")) eq_refl eq_refl)
           (js "Lib") (js "Library") (fun s _ => eq_refl)
           eq_refl eq_refl eq_refl eq_refl).
Defined.


(** ** Loading the knowledge and the statistics *)

Lemma existsb_eqb_In (x : jsstring) (l : list jsstring) :
  existsb (jsstring_eqb x) l = true <-> In x l.
Proof.
  rewrite existsb_exists. split.
  - intros [y [Hy He]]. apply jsstring_eqb_eq in He. now subst.
  - intros H. exists x. split; [exact H|]. now apply jsstring_eqb_eq.
Qed.

(** [new Set(values)] has each of the values once. *)
Lemma set_of_spec (values : list jsstring) :
  forall seen,
    NoDup seen ->
    NoDup (Dashboard.set_of seen values)
    /\ (forall c, In c (Dashboard.set_of seen values)
                  <-> In c seen \/ In c values)
    /\ (List.length (Dashboard.set_of seen values)
        <= List.length seen + List.length values)%nat.
Proof.
  induction values as [|x values IH]; intros seen Hs.
  - cbn. repeat split; try assumption; try tauto. lia.
  - cbn [Dashboard.set_of].
    destruct (existsb (jsstring_eqb x) seen) eqn:E.
    + apply existsb_eqb_In in E.
      destruct (IH seen Hs) as [H1 [H2 H3]].
      split; [exact H1|]. split.
      * intros c. rewrite H2. cbn [In]. split; [tauto|].
        intros [H|[<-|H]]; tauto.
      * cbn [List.length]. lia.
    + assert (Hx : ~ In x seen).
      { intros H. apply existsb_eqb_In in H. congruence. }
      assert (Hs' : NoDup (seen ++ [x])).
      { apply NoDup_app; [exact Hs|repeat constructor; intros []|].
        intros y Hy [<-|[]]. contradiction. }
      destruct (IH (seen ++ [x]) Hs') as [H1 [H2 H3]].
      split; [exact H1|]. split.
      * intros c. rewrite H2, in_app_iff. cbn [In]. tauto.
      * rewrite length_app in H3. cbn [List.length] in *. lia.
Qed.



Section Invariant.

Variable toLowerCase : jsstring -> jsstring.

Lemma filterKnowledge_allKnowledge (a : admin) :
  allKnowledge (filterKnowledge toLowerCase a) = allKnowledge a.
Proof.
  rewrite filterKnowledge_eq. cbn zeta.
  unfold updateFilteredCount, updateSearchResults, displayKnowledge.
  cbn [searchResults filteredCount].
  destruct (searchResults a); cbn [filteredCount];
    now destruct (filteredCount a).
Qed.

Lemma filterKnowledge_listed (a : admin) :
  incl (shown (knowledgeList (filterKnowledge toLowerCase a)))
    (allKnowledge (filterKnowledge toLowerCase a)).
Proof.
  rewrite filterKnowledge_shown, filterKnowledge_allKnowledge.
  apply incl_filter.
Qed.

Lemma updateStats_view (f : Dashboard.fetched) (d : Dashboard.dashboard) :
  Dashboard.load_failed (Dashboard.updateStats f d) = Dashboard.load_failed d
  /\ knowledgeList (Dashboard.view (Dashboard.updateStats f d))
     = knowledgeList (Dashboard.view d)
  /\ allKnowledge (Dashboard.view (Dashboard.updateStats f d))
     = allKnowledge (Dashboard.view d).
Proof.
  unfold Dashboard.updateStats, Dashboard.checkAuthentication.
  destruct f as [|r]; [repeat split|].
  destruct (Dashboard.redirected r
            && includes (Dashboard.url r) Dashboard.login);
    [repeat split|].
  destruct (Dashboard.not_json r); [repeat split|].
  destruct (Dashboard.json r) as [l|]; [|repeat split].
  destruct (Dashboard.totalKnowledge d); [|repeat split].
  cbn [Dashboard.totalCategories Dashboard.view].
  destruct (Dashboard.totalCategories d); [|repeat split].
  destruct (filteredCount (Dashboard.view d)) eqn:E; [|repeat split].
  unfold Dashboard.with_view, updateFilteredCount.
  cbn [Dashboard.view Dashboard.load_failed]. rewrite E. repeat split.
Qed.

Lemma step_listed (x : action) (d : Dashboard.dashboard) :
  incl (Dashboard.listed d) (allKnowledge (Dashboard.view d)) ->
  incl (Dashboard.listed (step toLowerCase x d))
    (allKnowledge (Dashboard.view (step toLowerCase x d))).
Proof.
  intros H. destruct x as [f|f|term|]; cbn [step].
  - unfold Dashboard.loadKnowledge, Dashboard.checkAuthentication.
    destruct f as [|r]; [intros e []|].
    destruct (Dashboard.redirected r
              && includes (Dashboard.url r) Dashboard.login); [exact H|].
    destruct (Dashboard.not_json r); [exact H|].
    destruct (Dashboard.json r) as [l|]; [|intros e []].
    unfold Dashboard.listed, Dashboard.with_view.
    cbn [Dashboard.load_failed Dashboard.view].
    unfold updateFilteredCount, displayKnowledge, Dashboard.set_allKnowledge.
    cbn [filteredCount].
    destruct (filteredCount (Dashboard.view d));
      cbn [knowledgeList allKnowledge]; destruct l;
      cbn [shown]; apply incl_refl.
  - destruct (updateStats_view f d) as [E1 [E2 E3]].
    unfold Dashboard.listed in *. now rewrite E1, E2, E3.
  - destruct (searchInput (Dashboard.view d)) eqn:E; [|exact H].
    unfold Dashboard.listed, Dashboard.with_view, on_input.
    cbn [Dashboard.load_failed Dashboard.view]. rewrite E.
    apply filterKnowledge_listed.
  - unfold Dashboard.listed, Dashboard.with_view, clearSearch.
    cbn [Dashboard.load_failed Dashboard.view].
    apply filterKnowledge_listed.
Qed.

(** Whatever loads, updates of the statistics, searches and clearings
    follow one another, the list never shows an entry that is not in the
    loaded list. *)
Theorem listed_entries_are_loaded (xs : list action)
    (d : Dashboard.dashboard) :
  incl (Dashboard.listed d) (allKnowledge (Dashboard.view d)) ->
  incl (Dashboard.listed (run toLowerCase xs d))
    (allKnowledge (Dashboard.view (run toLowerCase xs d))).
Proof.
  revert d. induction xs as [|x xs IH]; intros d H; [exact H|].
  cbn [run fold_left]. apply IH, step_listed, H.
Qed.

End Invariant.



Lemma listed_entries_are_loaded_witness :
  incl (Dashboard.listed empty_dashboard)
    (allKnowledge (Dashboard.view empty_dashboard))
  /\ incl
       (Dashboard.listed
          (run ascii_lower
             [Load (Dashboard.Resolved sample_response); Input (js "lib");
              Stats Dashboard.Rejected; Clear; Load Dashboard.Rejected]
             empty_dashboard))
       (allKnowledge
          (Dashboard.view
             (run ascii_lower
                [Load (Dashboard.Resolved sample_response); Input (js "lib");
                 Stats Dashboard.Rejected; Clear; Load Dashboard.Rejected]
                empty_dashboard))).
Proof.
  split; [intros e []|].
  apply (listed_entries_are_loaded ascii_lower). intros e [].
Defined.

(** ** The formatting on concrete texts *)

Lemma formatBotMessage_plain_witness :
  forallb plain (js "<img src=x onerror=alert()>") = true
  /\ formatBotMessage (js "<img src=x onerror=alert()>")
     = js "<img src=x onerror=alert()>".
Proof.
  split; [reflexivity|].
  apply (formatBotMessage_plain (js "<img src=x onerror=alert()>")).
  reflexivity.
Defined.

Lemma formatBotMessage_bold_witness :
  forallb plain (js "We are ") = true
  /\ forallb plain (js "open") = true
  /\ forallb (fun c => negb (is_line_terminator c)) (js "open") = true
  /\ nonempty (js "open") = true
  /\ forallb plain (js " today") = true
  /\ formatBotMessage (js "We are " ++ js "**" ++ js "open" ++ js "**"
                       ++ js " today")
     = js "We are " ++ js "<strong>" ++ js "open" ++ js "</strong>"
       ++ js " today".
Proof.
  repeat (split; [reflexivity|]).
  apply (formatBotMessage_bold (js "We are ") (js "open") (js " today"));
    reflexivity.
Defined.

Lemma formatBotMessage_numbered_witness :
  forallb plain (js "Steps: ") = true
  /\ forallb is_digit (js "12") = true
  /\ nonempty (js "12") = true
  /\ is_space 32 = true
  /\ forallb plain (js "apply") = true
  /\ formatBotMessage (js "Steps: " ++ js "12" ++ 46 :: 32 :: js "apply")
     = js "Steps: " ++ js "<br>" ++ js "12" ++ js ". " ++ js "apply".
Proof.
  repeat (split; [reflexivity|]).
  apply (formatBotMessage_numbered (js "Steps: ") (js "12") (js "apply") 32);
    reflexivity.
Defined.

Lemma formatBotMessage_link_witness :
  forallb plain (js "See ") = true
  /\ forallb plain (js "the site") = true
  /\ forallb (fun c => negb (c =? 93)) (js "the site") = true
  /\ nonempty (js "the site") = true
  /\ forallb plain (js "https://ncirl.ie/") = true
  /\ forallb (fun c => negb (c =? 41)) (js "https://ncirl.ie/") = true
  /\ nonempty (js "https://ncirl.ie/") = true
  /\ forallb plain (js ".") = true
  /\ formatBotMessage (js "See " ++ js "[" ++ js "the site" ++ js "]("
                       ++ js "https://ncirl.ie/" ++ js ")" ++ js ".")
     = js "See " ++ jq "<a href='" ++ js "https://ncirl.ie/"
       ++ jq "' target='_blank' rel='noopener noreferrer' "
       ++ jq "style='color: #667eea; text-decoration: underline;'>"
       ++ js "the site" ++ js "</a>" ++ js ".".
Proof.
  repeat (split; [reflexivity|]).
  apply (formatBotMessage_link (js "See ") (js "the site")
           (js "https://ncirl.ie/") (js "."));
    reflexivity.
Defined.

(** ** The id of the answer *)

Section Marker.

Variable Number_toString : number -> jsstring.

Lemma on_fields_marker (k : nat) (data : JValue) (c : consumer)
    (i : jsstring) :
  marker k (dom c) = Some i ->
  marker k (dom (snd (on_fields Number_toString k data c))) = Some i
  \/ marker k (dom (snd (on_fields Number_toString k data c))) = Some [].
Proof.
  intros H. unfold Chat.on_fields.
  destruct (ToBoolean (field (js "error") data)).
  - left. cbn [snd dom on_dom].
    now rewrite marker_emit, marker_set_innerHTML.
  - destruct (field (js "content") data) as [v|];
      [destruct (ToBoolean (Some v));
       [destruct (ToString Number_toString v) as [t|]|]|];
      destruct (ToBoolean (field (js "done") data));
      cbn [snd dom on_dom];
      rewrite ?marker_emit;
      try (left; now rewrite ?marker_emit, ?marker_set_innerHTML);
      right; eapply marker_set_id;
      rewrite ?marker_emit, ?marker_set_innerHTML; exact H.
Qed.

Lemma for_lines_marker (k : nat) (lines : list jsstring) (i : jsstring) :
  forall c,
    marker k (dom c) = Some i \/ marker k (dom c) = Some [] ->
    marker k (dom (for_lines Number_toString k lines c)) = Some i
    \/ marker k (dom (for_lines Number_toString k lines c)) = Some [].
Proof.
  induction lines as [|line rest IH]; intros c H; [exact H|].
  rewrite for_lines_cons.
  destruct (event_of_line line) as [data|]; [|now apply IH].
  assert (Hf : marker k (dom (snd (on_fields Number_toString k data c)))
               = Some i
               \/ marker k (dom (snd (on_fields Number_toString k data c)))
                  = Some []).
  { destruct H as [H|H].
    - apply (on_fields_marker k data c i H).
    - right. now destruct (on_fields_marker k data c [] H). }
  destruct (on_fields Number_toString k data c) as [[|] c']; cbn [snd] in Hf.
  - now apply IH.
  - exact Hf.
Qed.

(** In a run the id of the answer is the one it had or the empty one, and
    once it is empty it stays so: nothing gives an answer its id back, and
    no later event of the run undoes the completion. *)
Theorem cleared_id_stays_cleared (k : nat) (reads : list read_result)
    (c : consumer) (i : jsstring) :
  marker k (dom c) = Some i ->
  let c' := state_of (read_loop Number_toString k reads c) in
  (marker k (dom c') = Some i \/ marker k (dom c') = Some [])
  /\ forall more,
       marker k (dom c') = Some [] ->
       marker k (dom (state_of (read_loop Number_toString k more c')))
       = Some [].
Proof.
  assert (G : forall rs j c0,
             marker k (dom c0) = Some j \/ marker k (dom c0) = Some [] ->
             marker k (dom (state_of (read_loop Number_toString k rs c0)))
             = Some j
             \/ marker k (dom (state_of (read_loop Number_toString k rs c0)))
                = Some []).
  { induction rs as [|r rs IH]; intros j c0 H; [exact H|].
    destruct r; [|exact H..].
    rewrite read_loop_chunk. apply IH, for_lines_marker. exact H. }
  intros H. cbn zeta. split; [apply G; now left|].
  intros more Hm. destruct (G more [] _ (or_introl Hm)); assumption.
Qed.

End Marker.

Lemma cleared_id_stays_cleared_witness :
  marker 1 (dom (first_state (js "hello"))) = Some streaming_message
  /\ forall nts,
       marker 1
         (dom (state_of
                 (read_loop nts 1 (map Chunk hello_chunks)
                    (first_state (js "hello")))))
       = Some streaming_message
       \/ marker 1
            (dom (state_of
                    (read_loop nts 1 (map Chunk hello_chunks)
                       (first_state (js "hello")))))
          = Some [].
Proof.
  split; [reflexivity|]. intros nts.
  apply (cleared_id_stays_cleared nts 1 (map Chunk hello_chunks)
           (first_state (js "hello")) streaming_message).
  reflexivity.
Defined.
